(** * Region gating of Transportes Edimburgo: [src/lib/regionValidation.ts]

    A shallow embedding of the region-validation module: the static region
    registry, the admin configuration kept in [localStorage], the resolver of
    enabled regions, the address and route validators and the admin toggle.

    The module runs in a browser.  What the browser supplies (JSON, string
    conversion, the geocoder, the storage, the build-time environment) is
    either a field of the world the functions run in or a member of the
    [Host] class; a small reference host at the end of the definitions makes
    every statement testable on concrete inputs. *)

From Stdlib Require QArith.
From Stdlib Require Import Ascii.
From stdpp Require Import base strings list gmap pretty.

Abbreviation Q := QArith_base.Q.
Abbreviation Qeq_bool := QArith_base.Qeq_bool.

(** ** JavaScript values

    [JSON.parse] is typed [any]: the values that flow out of the storage are
    not constrained by the TypeScript interfaces, so they are kept dynamic.
    Numbers carry the rational a JSON literal denotes; the module never
    computes with them. *)

#[local] Set Warnings "-register-all".

Inductive value : Type :=
| VUndefined
| VNull
| VBool (b : bool)
| VNum (q : Q)
| VStr (s : string)
| VArr (elems : list value)
| VObj (props : list (string * value)).

(** Faults: [throw new Error(message)], the [TypeError] the engine raises on a
    property read of [null] or on a call of a missing method, and the
    [SyntaxError] of [JSON.parse]. *)
Inductive exn : Type :=
| Error (message : string)
| TypeError
| SyntaxError.

Inductive result (A : Type) : Type :=
| Return (a : A)
| Throw (e : exn).
Arguments Return {A} a.
Arguments Throw {A} e.

(** Sequencing: a fault ends the computation.  With these two instances the
    functions below are written [x ← m; k]. *)
#[global] Instance result_ret : MRet result := λ A a, Return a.
#[global] Instance result_bind : MBind result := λ A B k m,
  match m with
  | Return a => k a
  | Throw e => Throw e
  end.

(** [try { body } catch { handler }] for a body without effects on the world. *)
Definition try_catch {A} (body : result A) (handler : A) : A :=
  match body with
  | Return a => a
  | Throw _ => handler
  end.

(** ToBoolean. *)
Definition truthy (v : value) : bool :=
  match v with
  | VUndefined | VNull => false
  | VBool b => b
  | VNum q => negb (Qeq_bool q (QArith_base.Qmake 0 1))
  | VStr s => negb (bool_decide (s = EmptyString))
  | VArr _ | VObj _ => true
  end.

(** [a || b] *)
Definition or_else (a b : value) : value := if truthy a then a else b.

(** SameValueZero, the comparison of [Array.prototype.includes] and of [Set].
    Arrays and objects compare by identity; every array or object met here is
    a distinct node of a freshly parsed JSON tree, so two of them never
    compare equal.  On the values of this model [===] agrees with it. *)
Definition SameValueZero (x y : value) : bool :=
  match x, y with
  | VUndefined, VUndefined => true
  | VNull, VNull => true
  | VBool a, VBool b => bool_decide (a = b)
  | VNum a, VNum b => Qeq_bool a b
  | VStr a, VStr b => bool_decide (a = b)
  | _, _ => false
  end.

(** [xs.includes(x)] *)
Definition includes (xs : list value) (x : value) : bool :=
  existsb (SameValueZero x) xs.

(** [xs.push(x)] on the array under construction. *)
Definition push {A} (xs : list A) (x : A) : list A := xs ++ [x].

(** [[...new Set(xs)]]: first occurrences, in insertion order. *)
Definition Set_spread (xs : list value) : list value :=
  foldl (λ seen x, if includes seen x then seen else push seen x) [] xs.

(** [parsed.isAdmin], [parsed.enabledRegions]: a read of a property that no
    built-in prototype defines.  Reading from [null] raises; a primitive or an
    array answers [undefined]; an object answers its own property. *)
Definition get_field (v : value) (key : string) : result value :=
  match v with
  | VUndefined | VNull => Throw TypeError
  | VObj props =>
      Return (match list_find (λ p, p.1 = key) props with
              | Some (_, (_, x)) => x
              | None => VUndefined
              end)
  | _ => Return VUndefined
  end.

(** ** The region registry *)

Module RegionConfig.
Record t : Type := mk {
  code : string;
  name : string;
  enabled : bool;
  adminOnly : bool
}.
End RegionConfig.

(** The object literal, as its own properties in insertion order. *)
Definition REGION_CONFIG : list (string * RegionConfig.t) :=
  [ ("CL", RegionConfig.mk "CL" "Chile" true false);
    ("AR", RegionConfig.mk "AR" "Argentina" false true);
    ("PE", RegionConfig.mk "PE" "Perú" false true);
    ("BO", RegionConfig.mk "BO" "Bolivia" false true);
    ("CO", RegionConfig.mk "CO" "Colombia" false true) ].

(** [Object.values(obj)] *)
Definition Object_values {A} (obj : list (string * A)) : list A := obj.*2.

(** [REGION_CONFIG] is a plain object literal, so [REGION_CONFIG[key]] also
    finds what it inherits from [Object.prototype].  Each inherited member is
    listed with its own [name] property: the functions carry their name, the
    [__proto__] accessor answers [Object.prototype], which has none. *)
Definition Object_prototype : list (string * option string) :=
  [ ("constructor", Some "Object");
    ("hasOwnProperty", Some "hasOwnProperty");
    ("isPrototypeOf", Some "isPrototypeOf");
    ("propertyIsEnumerable", Some "propertyIsEnumerable");
    ("toLocaleString", Some "toLocaleString");
    ("toString", Some "toString");
    ("valueOf", Some "valueOf");
    ("__defineGetter__", Some "__defineGetter__");
    ("__defineSetter__", Some "__defineSetter__");
    ("__lookupGetter__", Some "__lookupGetter__");
    ("__lookupSetter__", Some "__lookupSetter__");
    ("__proto__", None) ].

Inductive member : Type :=
| OwnRegion (region : RegionConfig.t)
| Inherited (name_property : option string)
| Missing.

Definition assoc {A} (key : string) (obj : list (string * A)) : option A :=
  snd ∘ snd <$> list_find (λ p, p.1 = key) obj.

(** [REGION_CONFIG[key]] *)
Definition REGION_CONFIG_get (key : string) : member :=
  match assoc key REGION_CONFIG with
  | Some region => OwnRegion region
  | None =>
      match assoc key Object_prototype with
      | Some name_property => Inherited name_property
      | None => Missing
      end
  end.

(** The registry proper: the codes the object literal declares. *)
Definition in_registry (key : string) : Prop := is_Some (assoc key REGION_CONFIG).

(** ** The host

    Built-ins of the JavaScript engine that the module calls and that are not
    part of the repository.  [JSON_parse] answers [None] where [JSON.parse]
    raises a [SyntaxError]; [ToString] is the string conversion of a value
    that is not a string; [string_iterator] lists the code points a string
    yields when it is spread. *)

Class Host : Type := {
  JSON_parse : string → option value;
  JSON_stringify : value → string;
  ToString : value → string;
  string_iterator : string → list string
}.

(** ** The world the module runs in *)

Record AddressComponent : Type := {
  long_name : string;
  short_name : string;
  types : list string
}.

Record GeocoderResult : Type := {
  address_components : list AddressComponent
}.

Inductive GeocoderStatus : Type :=
| OK | ZERO_RESULTS | OVER_QUERY_LIMIT | REQUEST_DENIED
| INVALID_REQUEST | UNKNOWN_ERROR | ERROR.

(** What [geocoder.geocode] hands to its callback: [results] may be [null]. *)
Record GeocoderResponse : Type := {
  results : option (list GeocoderResult);
  status : GeocoderStatus
}.

(** Reads and writes of the storage are taken to succeed. *)
Record World : Type := {
  (** [localStorage] *)
  localStorage : gmap string string;
  (** [import.meta.env.VITE_ADMIN_ENABLED], absent when the variable is unset *)
  VITE_ADMIN_ENABLED : option string;
  (** [window.google?.maps]: [None] until the mapping engine is loaded, then
      the answer of the geocoding service to each address *)
  google_maps : option (string → GeocoderResponse)
}.

Definition getItem (key : string) (w : World) : option string :=
  localStorage w !! key.

Definition setItem (key data : string) (w : World) : World :=
  {| localStorage := <[key := data]> (localStorage w);
     VITE_ADMIN_ENABLED := VITE_ADMIN_ENABLED w;
     google_maps := google_maps w |}.

Definition ADMIN_KEY : string := "transportes_edimburgo_admin".

(** ** Admin configuration *)

Record AdminConfig : Type := {
  isAdmin : value;
  enabledRegions : value
}.

(** The object [JSON.stringify] receives for a configuration. *)
Definition AdminConfig_object (c : AdminConfig) : value :=
  VObj [("isAdmin", isAdmin c); ("enabledRegions", enabledRegions c)].

(** A configuration that inhabits the TypeScript interface
    [{ isAdmin: boolean, enabledRegions: string[] }]. *)
Definition admin_config (admin : bool) (codes : list string) : AdminConfig :=
  {| isAdmin := VBool admin; enabledRegions := VArr (VStr <$> codes) |}.

(** ** Validation results *)

Module AddressValidation.
Record t : Type := mk {
  valid : bool;
  countryCode : option string;
  error : option string
}.
End AddressValidation.

Module RouteValidation.
Record t : Type := mk {
  valid : bool;
  errors : list string
}.
End RouteValidation.

Section RegionValidation.
Context `{Host}.

Definition getAdminConfig (w : World) : AdminConfig :=
  let fallback :=
    let adminFromEnv := bool_decide (VITE_ADMIN_ENABLED w = Some "true") in
    {| isAdmin := VBool adminFromEnv; enabledRegions := VArr [] |} in
  match getItem ADMIN_KEY w with
  | Some adminFromStorage =>
      if truthy (VStr adminFromStorage) then
        try_catch
          (parsed ← match JSON_parse adminFromStorage with
                    | Some v => Return v
                    | None => Throw SyntaxError
                    end;
           a ← get_field parsed "isAdmin";
           e ← get_field parsed "enabledRegions";
           Return {| isAdmin := or_else a (VBool false);
                     enabledRegions := or_else e (VArr []) |})
          {| isAdmin := VBool false; enabledRegions := VArr [] |}
      else fallback
  | None => fallback
  end.

(** The regions enabled by default: first [forEach] of [getEnabledRegions]. *)
Definition default_regions : list value :=
  foldl (λ enabled region,
           if RegionConfig.enabled region && negb (RegionConfig.adminOnly region)
           then push enabled (VStr (RegionConfig.code region))
           else enabled)
        [] (Object_values REGION_CONFIG).

(** Second [forEach]: the codes the admin enabled, each pushed once. *)
Definition add_admin_codes (enabled codes : list value) : list value :=
  foldl (λ enabled code,
           if negb (includes enabled code) then push enabled code else enabled)
        enabled codes.

(** Third [forEach]: the admin-only regions of the registry that the admin
    enabled. *)
Definition add_adminOnly_regions (enabled codes : list value) : list value :=
  foldl (λ enabled region,
           if RegionConfig.adminOnly region
              && includes codes (VStr (RegionConfig.code region))
           then
             if negb (includes enabled (VStr (RegionConfig.code region)))
             then push enabled (VStr (RegionConfig.code region))
             else enabled
           else enabled)
        enabled (Object_values REGION_CONFIG).

Definition getEnabledRegions (w : World) : result (list value) :=
  let adminConfig := getAdminConfig w in
  let enabled := default_regions in
  if truthy (isAdmin adminConfig) then
    match enabledRegions adminConfig with
    | VArr codes =>
        let enabled := add_admin_codes enabled codes in
        let enabled := add_adminOnly_regions enabled codes in
        Return enabled
    | _ => Throw TypeError   (* [forEach] is not a function *)
    end
  else Return enabled.

(** ** Address validation *)

(** The first component tagged as a country: what the [for ... of] loop with
    its [break], and [find] after it, both stop at. *)
Definition find_country (components : list AddressComponent)
  : option AddressComponent :=
  snd <$> list_find (λ component, "country" ∈ types component) components.

(** A value used as a property key. *)
Definition property_key (c : value) : string :=
  match c with
  | VStr s => s
  | _ => ToString c
  end.

(** [REGION_CONFIG[c]?.name || c] *)
Definition region_label (c : value) : value :=
  or_else
    match REGION_CONFIG_get (property_key c) with
    | OwnRegion region => VStr (RegionConfig.name region)
    | Inherited (Some function_name) => VStr function_name
    | Inherited None | Missing => VUndefined
    end
    c.

(** [xs.join(sep)]: [null] and [undefined] print as nothing. *)
Definition join (sep : string) (xs : list value) : string :=
  String.concat sep
    ((λ x, match x with
           | VUndefined | VNull => EmptyString
           | VStr s => s
           | _ => ToString x
           end) <$> xs).

(** [enabledRegions.map(c => REGION_CONFIG[c]?.name || c).join(', ')] *)
Definition allowed_names (enabledRegions : list value) : string :=
  join ", " (region_label <$> enabledRegions).

(** [s || fallback] on strings that may be absent. *)
Definition string_or (s : option string) (fallback : string) : string :=
  match s with
  | Some x => if bool_decide (x = EmptyString) then fallback else x
  | None => fallback
  end.

(** The promise is modelled by the value it settles with: [Return] when it is
    resolved, [Throw] when the body raises before the request is issued. *)
Definition validateAddressRegion (w : World) (address : string)
  : result AddressValidation.t :=
  match google_maps w with
  | None =>
      Return (AddressValidation.mk false None
                (Some "Google Maps no está cargado"))
  | Some geocode =>
      enabledRegions ← getEnabledRegions w;
      let response := geocode address in
      match status response, results response with
      | OK, Some (first :: _) =>
          let addressComponents := address_components first in
          let countryCode := short_name <$> find_country addressComponents in
          match countryCode with
          | Some countryCode =>
              if bool_decide (countryCode = EmptyString) then
                Return (AddressValidation.mk false None
                          (Some "No se pudo determinar el país de la dirección"))
              else if includes enabledRegions (VStr countryCode) then
                Return (AddressValidation.mk true (Some countryCode) None)
              else
                let countryName :=
                  string_or (long_name <$> find_country addressComponents)
                            countryCode in
                Return (AddressValidation.mk false (Some countryCode)
                  (Some ("Las rutas fuera de " +:+ allowed_names enabledRegions
                         +:+ " no están permitidas. Contacta a un administrador para habilitar "
                         +:+ countryName +:+ ".")))
          | None =>
              Return (AddressValidation.mk false None
                        (Some "No se pudo determinar el país de la dirección"))
          end
      | _, _ =>
          Return (AddressValidation.mk false None
                    (Some "No se pudo validar la dirección"))
      end
  end.

(** ** Route validation *)

Definition validateRouteRegions (w : World) (origin destination : string)
  : result RouteValidation.t :=
  let errors := [] in
  originValidation ← validateAddressRegion w origin;
  let errors :=
    if negb (AddressValidation.valid originValidation) then
      push errors ("Origen: " +:+ string_or (AddressValidation.error originValidation)
                                            "Dirección no válida")
    else errors in
  destinationValidation ← validateAddressRegion w destination;
  let errors :=
    if negb (AddressValidation.valid destinationValidation) then
      push errors ("Destino: " +:+ string_or (AddressValidation.error destinationValidation)
                                             "Dirección no válida")
    else errors in
  errors ←
    match AddressValidation.countryCode originValidation,
          AddressValidation.countryCode destinationValidation with
    | Some originCode, Some destinationCode =>
        if negb (bool_decide (originCode = EmptyString))
           && negb (bool_decide (destinationCode = EmptyString)) then
          enabledRegions ← getEnabledRegions w;
          let errors :=
            if negb (includes enabledRegions (VStr originCode)) then
              push errors ("El origen debe estar en " +:+ allowed_names enabledRegions)
            else errors in
          let errors :=
            if negb (includes enabledRegions (VStr destinationCode)) then
              push errors ("El destino debe estar en " +:+ allowed_names enabledRegions)
            else errors in
          Return errors
        else Return errors
    | _, _ => Return errors
    end;
  Return (RouteValidation.mk (bool_decide (length errors = 0)) errors).

(** ** Admin mutation *)

(** [[...xs, x]]: an array spreads its elements, a string its code points,
    anything else is not iterable. *)
Definition spread (xs : value) : result (list value) :=
  match xs with
  | VArr elems => Return elems
  | VStr s => Return (VStr <$> string_iterator s)
  | _ => Throw TypeError
  end.

(** [xs.filter(code => code !== regionCode)]: only arrays have [filter]. *)
Definition filter_out (xs : value) (regionCode : string) : result (list value) :=
  match xs with
  | VArr elems =>
      Return (List.filter (λ code, negb (SameValueZero code (VStr regionCode))) elems)
  | _ => Throw TypeError
  end.

(** The function returns nothing: its outcome is whether it raised, and the
    world it leaves. *)
Definition toggleRegionForAdmin (regionCode : string) (enabled : bool) (w : World)
  : result () * World :=
  let adminConfig := getAdminConfig w in
  if negb (truthy (isAdmin adminConfig)) then
    (Throw (Error "No tienes permisos de administrador"), w)
  else
    match REGION_CONFIG_get regionCode with
    | Missing =>
        (Throw (Error ("Región " +:+ regionCode +:+ " no encontrada")), w)
    | OwnRegion _ | Inherited _ =>
        let updatedEnabledRegions :=
          if enabled then
            elems ← spread (enabledRegions adminConfig);
            Return (Set_spread (elems ++ [VStr regionCode]))
          else filter_out (enabledRegions adminConfig) regionCode in
        match updatedEnabledRegions with
        | Throw e => (Throw e, w)
        | Return updatedEnabledRegions =>
            let updatedConfig :=
              {| isAdmin := isAdmin adminConfig;
                 enabledRegions := VArr updatedEnabledRegions |} in
            (Return (),
             setItem ADMIN_KEY (JSON_stringify (AdminConfig_object updatedConfig)) w)
        end
    end.

(** ** Region list of the admin panel *)

(** Every registry entry with its effective status ([isEnabled]). *)
Definition getRegionInfo (w : World) : result (list (RegionConfig.t * bool)) :=
  enabledRegions ← getEnabledRegions w;
  Return ((λ region,
             (region, includes enabledRegions (VStr (RegionConfig.code region))))
          <$> Object_values REGION_CONFIG).

(** ** Vocabulary of the statements *)

Definition is_object (v : value) : bool :=
  match v with
  | VObj _ => true
  | _ => false
  end.

(** The host reads back the configuration it wrote: the text is not empty and
    parses to the object it was printed from. *)
Definition round_trips (c : AdminConfig) : Prop :=
  JSON_stringify (AdminConfig_object c) ≠ EmptyString ∧
  JSON_parse (JSON_stringify (AdminConfig_object c)) = Some (AdminConfig_object c).

(** The mapping engine is loaded and answers [address] with status [OK] and
    a first candidate whose first country component is [country]. *)
Definition geocodes_to (w : World) (address : string) (country : AddressComponent)
  : Prop :=
  ∃ geocode first others,
    google_maps w = Some geocode ∧
    status (geocode address) = OK ∧
    results (geocode address) = Some (first :: others) ∧
    find_country (address_components first) = Some country.

End RegionValidation.

(** ** The admin panel ([AdminRegionPanel]) *)


(** The list the toggle computes for an admin whose stored codes are
    [codes]: [updatedEnabledRegions], in either direction. *)
Definition updated_regions (codes : list string) (regionCode : string)
    (enabled : bool) : list value :=
  if enabled then Set_spread ((VStr <$> codes) ++ [VStr regionCode])
  else List.filter (λ code, negb (SameValueZero code (VStr regionCode)))
                   (VStr <$> codes).

Section AdminRegionPanel.
Context `{Host}.

(** [handleToggleRegion]: the world and the [regions] state it leaves.  A
    fault of the toggle or of [getRegionInfo] is caught and only written to
    the console: [setRegions] is then not reached. *)
Definition handleToggleRegion (regionCode : string) (currentEnabled : bool)
    (w : World) (regions : list (RegionConfig.t * bool))
  : World * list (RegionConfig.t * bool) :=
  match toggleRegionForAdmin regionCode (negb currentEnabled) w with
  | (Return _, w) =>
      match getRegionInfo w with
      | Return info => (w, info)
      | Throw _ => (w, regions)
      end
  | (Throw _, w) => (w, regions)
  end.

End AdminRegionPanel.

(** ** The maps logger ([src/lib/mapsLogger.ts])

    The buffer of the logger and the methods that do not read Google Maps
    objects: [addLog], [logInfo], the getters and [clearLogs].  What is
    written to the console is returned beside the new state. *)

(** [s.trim().length], a built-in of the engine. *)
Class StringHost : Type := {
  trimmed_length : string → nat
}.

(** [haystack.includes(needle)] on strings. *)
Fixpoint starts_with (prefix s : string) : bool :=
  match prefix, s with
  | EmptyString, _ => true
  | String a prefix, String b s => bool_decide (a = b) && starts_with prefix s
  | String _ _, EmptyString => false
  end.

Fixpoint string_includes (needle haystack : string) : bool :=
  starts_with needle haystack
  || match haystack with
     | String _ rest => string_includes needle rest
     | EmptyString => false
     end.

(** [v?.key]: [undefined] on [null] and [undefined], else the property. *)
Definition optional_field (v : value) (key : string) : value :=
  match get_field v key with
  | Return x => x
  | Throw _ => VUndefined
  end.

(** [address?.trim().length < 5]: the comparison with [undefined] is false,
    and only strings have [trim]. *)
Definition trims_short `{StringHost} (address : value) : result bool :=
  match address with
  | VUndefined | VNull => Return false
  | VStr s => Return (bool_decide (trimmed_length s < 5))
  | _ => Throw TypeError
  end.

Module MapsLogger.

Inductive EntryType : Type := route | geocode | place | error | info.

#[global] Instance EntryType_eq_dec : EqDecision EntryType.
Proof. solve_decision. Defined.

Record MapsLogEntry : Type := mkEntry {
  timestamp : string;
  type : EntryType;
  action : string;
  data : value
}.

Record t : Type := mk {
  logs : list MapsLogEntry;
  maxLogs : nat;
  enabled : bool
}.

(** [import.meta.env] *)
Record Env : Type := {
  DEV : bool;
  VITE_ENABLE_MAPS_LOGGER : option string
}.

(** [new MapsLogger()] *)
Definition new (env : Env) : t :=
  {| logs := [];
     maxLogs := 100;
     enabled := DEV env || bool_decide (VITE_ENABLE_MAPS_LOGGER env = Some "true") |}.

Inductive console_line : Type :=
| console_error (text : string) (data : value)
| console_log (text : string) (data : value).

(** [entry.type.toUpperCase()] *)
Definition type_upper (type : EntryType) : string :=
  match type with
  | route => "ROUTE"
  | geocode => "GEOCODE"
  | place => "PLACE"
  | error => "ERROR"
  | info => "INFO"
  end.

(** The console part of [addLog]. *)
Definition console_output `{StringHost} (env : Env) (entry : MapsLogEntry)
  : result (list console_line) :=
  if DEV env then
      (if bool_decide (type entry = error)
          && bool_decide (action entry = "route_validation_failed") then
         origin ← get_field (data entry) "origin";
         trims_short (optional_field origin "address") ≫= λ short : bool,
         if short then Return true
         else
           destination ← get_field (data entry) "destination";
           trims_short (optional_field destination "address")
       else Return false) ≫= λ isValidationError : bool,
      (if bool_decide (type entry = error)
          && string_includes "geocode" (action entry) then
         address ← get_field (data entry) "address";
         trims_short address
       else Return false) ≫= λ isGeocodeErrorForShortAddress : bool,
    if negb isValidationError && negb isGeocodeErrorForShortAddress then
      let text := "[MapsLogger] " +:+ type_upper (type entry) +:+ ": "
                  +:+ action entry in
      Return [ if bool_decide (type entry = error)
               then console_error text (data entry)
               else console_log text (data entry) ]
    else Return []
  else Return [].

(** [addLog]: the entry is stored before the console is written, so a fault
    of the console part leaves the entry in the buffer. *)
Definition addLog `{StringHost} (env : Env) (entry : MapsLogEntry) (l : t)
  : result (list console_line) * t :=
  if negb (enabled l) then (Return [], l)
  else
    let logs := push (logs l) entry in
    let logs := if bool_decide (maxLogs l < length logs) then tail logs else logs in
    (console_output env entry,
     {| logs := logs; maxLogs := maxLogs l; enabled := enabled l |}).

(** [logInfo]; [now] is [new Date().toISOString()]. *)
Definition logInfo `{StringHost} (env : Env) (now : string) (action : string)
    (data : value) (l : t) : result (list console_line) * t :=
  addLog env (mkEntry now info action data) l.

Definition getLogs (l : t) : list MapsLogEntry := logs l.

Definition getLogsByType (type' : EntryType) (l : t) : list MapsLogEntry :=
  filter (λ log, type log = type') (logs l).

Definition getErrors (l : t) : list MapsLogEntry := getLogsByType error l.

Definition clearLogs (l : t) : t :=
  {| logs := []; maxLogs := maxLogs l; enabled := enabled l |}.

End MapsLogger.

(** ** The notification manager ([src/lib/notifications.ts])

    A listener is a function compared by reference: it is named by a number,
    and a call of it is an effect that carries the copy of the list it
    receives.  A listener is taken to observe only. *)

Module Notifications.

Inductive NotificationType : Type := error | warning | info | success.

#[global] Instance NotificationType_eq_dec : EqDecision NotificationType.
Proof. solve_decision. Defined.

(** [timestamp] is the [Date], by its ISO text. *)
Record Notification : Type := mkNotification {
  id : string;
  type : NotificationType;
  message : string;
  timestamp : string
}.

Definition Listener : Type := nat.

Record t : Type := mk {
  notifications : list Notification;
  listeners : list Listener
}.

Inductive effect : Type :=
| Listener_called (listener : Listener) (snapshot : list Notification)
| Console_error (text : string)
| Maps_console (line : MapsLogger.console_line)
| Timeout_set (ms : nat) (id : string).

Definition type_text (type : NotificationType) : string :=
  match type with
  | error => "error"
  | warning => "warning"
  | info => "info"
  | success => "success"
  end.

(** [notify]: every listener receives a copy of the list. *)
Definition notify (m : t) : list effect :=
  (λ listener, Listener_called listener (notifications m)) <$> listeners m.

(** [subscribe(listener)]; the function it returns is [unsubscribe listener]. *)
Definition subscribe (listener : Listener) (m : t) : t :=
  {| notifications := notifications m; listeners := push (listeners m) listener |}.

Definition unsubscribe (listener : Listener) (m : t) : t :=
  {| notifications := notifications m;
     listeners := filter (λ l, l ≠ listener) (listeners m) |}.

(** [add(type, message)].  [fresh] is the text of
    [`${Date.now()}-${Math.random()}`], [now] the ISO text of the
    notification's [Date], [logged_at] the one the logger reads. *)
Definition add `{StringHost} (env : MapsLogger.Env)
    (fresh now logged_at : string) (type : NotificationType) (message : string)
    (m : t) (logger : MapsLogger.t)
  : result (list effect) * t * MapsLogger.t :=
  let notification := mkNotification fresh type message now in
  let m := {| notifications := push (notifications m) notification;
              listeners := listeners m |} in
  let '(logged, logger) :=
    MapsLogger.logInfo env logged_at "notification"
      (VObj [("type", VStr (type_text type));
             ("message", VStr message);
             ("timestamp", VStr now)])
      logger in
  match logged with
  | Throw e => (Throw e, m, logger)
  | Return lines =>
      let console :=
        if MapsLogger.DEV env && bool_decide (type = error) then
          let isValidationError :=
            string_includes "No se pudo validar" message
            || string_includes "No se pudo determinar" message in
          if negb isValidationError then [Console_error ("[ERROR] " +:+ message)]
          else []
        else [] in
      let timer :=
        if bool_decide (type ≠ error) then [Timeout_set 5000 fresh] else [] in
      (Return ((Maps_console <$> lines) ++ console ++ timer ++ notify m), m, logger)
  end.

(** [remove(id)], also what the timer of [add] runs. *)
Definition remove (id' : string) (m : t) : list effect * t :=
  let m := {| notifications := filter (λ n, id n ≠ id') (notifications m);
              listeners := listeners m |} in
  (notify m, m).

Definition clear (m : t) : list effect * t :=
  let m := {| notifications := []; listeners := listeners m |} in
  (notify m, m).

Definition getNotifications (m : t) : list Notification := notifications m.

(** The manager the module exports. *)
Definition new : t := {| notifications := []; listeners := [] |}.

End Notifications.

(** ** The quote page

    [validation.errors.join('\n')], the message the page hands to
    [notifyError] when a route is refused. *)
Definition route_error_message (validation : RouteValidation.t) : string :=
  String.concat (String (ascii_of_nat 10) EmptyString)
    (RouteValidation.errors validation).

(** ** A reference [trim]

    Strings of bytes: the white space of ASCII is trimmed and the length
    counts bytes. *)

Module ReferenceStrings.

Definition is_white_space (c : ascii) : bool :=
  let n := nat_of_ascii c in
  bool_decide (n = 32) || (bool_decide (9 ≤ n) && bool_decide (n ≤ 13)).

Fixpoint trimStart (s : string) : string :=
  match s with
  | String c rest => if is_white_space c then trimStart rest else s
  | EmptyString => EmptyString
  end.

Definition trim (s : string) : string :=
  String.rev (trimStart (String.rev (trimStart s))).

Definition host : StringHost :=
  {| trimmed_length s := String.length (trim s) |}.

End ReferenceStrings.

(** ** A reference host

    An executable host for running the module on concrete worlds: a
    recursive-descent reader of JSON texts, the matching printer, and the
    string conversions.  Strings are kept as their UTF-8 bytes; a [\u] escape
    is decoded one code unit at a time. *)

Module Reference.

Definition is_code (c : ascii) (n : nat) : bool := bool_decide (nat_of_ascii c = n).
Definition chr (n : nat) : string := String (ascii_of_nat n) EmptyString.
Definition quote : string := chr 34.

Definition is_ws (c : ascii) : bool := is_code c 32 || is_code c 9 || is_code c 10 || is_code c 13.

Fixpoint skip_ws (s : string) : string :=
  match s with
  | String c rest => if is_ws c then skip_ws rest else s
  | EmptyString => s
  end.

Definition digit (c : ascii) : option nat :=
  let n := nat_of_ascii c in
  if bool_decide (48 ≤ n ≤ 57) then Some (n - 48) else None.

Definition hex_digit (c : ascii) : option nat :=
  let n := nat_of_ascii c in
  if bool_decide (48 ≤ n ≤ 57) then Some (n - 48)
  else if bool_decide (65 ≤ n ≤ 70) then Some (n - 55)
  else if bool_decide (97 ≤ n ≤ 102) then Some (n - 87)
  else None.

(** UTF-8 bytes of a code unit below 0x10000. *)
Definition utf8 (n : nat) : string :=
  if bool_decide (n < 128) then chr n
  else if bool_decide (n < 2048) then chr (192 + n / 64) +:+ chr (128 + n mod 64)
  else chr (224 + n / 4096) +:+ chr (128 + (n / 64) mod 64) +:+ chr (128 + n mod 64).

Definition unescape (c : ascii) : option string :=
  if is_code c 34 || is_code c 92 || is_code c 47 then Some (String c EmptyString)
  else if is_code c 98 then Some (chr 8)
  else if is_code c 102 then Some (chr 12)
  else if is_code c 110 then Some (chr 10)
  else if is_code c 114 then Some (chr 13)
  else if is_code c 116 then Some (chr 9)
  else None.

(** The characters of a string literal, after its opening quote. *)
Fixpoint parse_chars (s : string) : option (string * string) :=
  match s with
  | EmptyString => None
  | String c rest =>
      if is_code c 34 then Some (EmptyString, rest)
      else if is_code c 92 then
        match rest with
        | String e rest =>
            if is_code e 117 then
              match rest with
              | String h1 (String h2 (String h3 (String h4 rest))) =>
                  a ← hex_digit h1; b ← hex_digit h2;
                  c ← hex_digit h3; d ← hex_digit h4;
                  '(str, rest) ← parse_chars rest;
                  Some (utf8 (((a * 16 + b) * 16 + c) * 16 + d) +:+ str, rest)
              | _ => None
              end
            else
              u ← unescape e;
              '(str, rest) ← parse_chars rest;
              Some (u +:+ str, rest)
        | EmptyString => None
        end
      else if bool_decide (nat_of_ascii c < 32) then None
      else '(str, rest) ← parse_chars rest; Some (String c str, rest)
  end.

(** A run of digits: its value, its length, and what follows. *)
Fixpoint parse_digits (s : string) (acc : Z) (count : nat) : Z * nat * string :=
  match s with
  | String c rest =>
      match digit c with
      | Some d => parse_digits rest (acc * 10 + Z.of_nat d)%Z (S count)
      | None => (acc, count, s)
      end
  | EmptyString => (acc, count, s)
  end.

Definition parse_sign (s : string) : bool * string :=
  match s with
  | String c rest => if is_code c 45 then (true, rest) else (false, s)
  | EmptyString => (false, s)
  end.

Definition leading_zero (s : string) : bool :=
  match s with
  | String c _ => is_code c 48
  | EmptyString => false
  end.

(** [-? int frac? exp?] *)
Definition parse_number (s : string) : option (Q * string) :=
  let '(negative, s) := parse_sign s in
  let '(int, int_len, s1) := parse_digits s 0%Z 0 in
  guard (0 < int_len);;
  guard (int_len = 1 ∨ leading_zero s = false);;
  '(mantissa, frac_len, s2) ←
    match s1 with
    | String c rest =>
        if is_code c 46 then
          let '(m, len, rest') := parse_digits rest int 0 in
          guard (0 < len);; Some (m, len, rest')
        else Some (int, 0, s1)
    | EmptyString => Some (int, 0, s1)
    end;
  '(exponent, s3) ←
    match s2 with
    | String c rest =>
        if is_code c 101 || is_code c 69 then
          let '(minus, rest) :=
            match rest with
            | String c' rest' =>
                if is_code c' 45 then (true, rest')
                else if is_code c' 43 then (false, rest') else (false, rest)
            | EmptyString => (false, rest)
            end in
          let '(e, len, rest') := parse_digits rest 0%Z 0 in
          guard (0 < len);; Some (if minus then (- e)%Z else e, rest')
        else Some (0%Z, s2)
    | EmptyString => Some (0%Z, s2)
    end;
  let shift := (exponent - Z.of_nat frac_len)%Z in
  let signed := if negative then (- mantissa)%Z else mantissa in
  Some (if bool_decide (0 ≤ shift)%Z
        then QArith_base.Qmake (signed * 10 ^ shift) 1
        else Qreduction.Qred (QArith_base.Qmake signed (Z.to_pos (10 ^ (- shift)))),
        s3).

Fixpoint strip_prefix (prefix s : string) : option string :=
  match prefix, s with
  | EmptyString, _ => Some s
  | String a prefix, String b s =>
      if bool_decide (a = b) then strip_prefix prefix s else None
  | String _ _, EmptyString => None
  end.

(** A later member with a key already seen replaces the value in place. *)
Fixpoint set_member (key : string) (x : value) (props : list (string * value))
  : list (string * value) :=
  match props with
  | [] => [(key, x)]
  | (k, y) :: props =>
      if bool_decide (k = key) then (k, x) :: props
      else (k, y) :: set_member key x props
  end.

Fixpoint parse_value (fuel : nat) (s : string) {struct fuel}
  : option (value * string) :=
  match fuel with
  | O => None
  | S fuel =>
      match skip_ws s with
      | EmptyString => None
      | String c rest =>
          if is_code c 34 then
            '(str, rest) ← parse_chars rest; Some (VStr str, rest)
          else if is_code c 91 then
            match skip_ws rest with
            | String c' rest' =>
                if is_code c' 93 then Some (VArr [], rest')
                else '(elems, rest) ← parse_elements fuel rest;
                     Some (VArr elems, rest)
            | EmptyString => None
            end
          else if is_code c 123 then
            match skip_ws rest with
            | String c' rest' =>
                if is_code c' 125 then Some (VObj [], rest')
                else '(props, rest) ← parse_members fuel rest;
                     Some (VObj (foldl (λ obj p, set_member p.1 p.2 obj) [] props), rest)
            | EmptyString => None
            end
          else
            match strip_prefix "null" (String c rest),
                  strip_prefix "true" (String c rest),
                  strip_prefix "false" (String c rest) with
            | Some rest, _, _ => Some (VNull, rest)
            | _, Some rest, _ => Some (VBool true, rest)
            | _, _, Some rest => Some (VBool false, rest)
            | None, None, None =>
                '(q, rest) ← parse_number (String c rest); Some (VNum q, rest)
            end
      end
  end
with parse_elements (fuel : nat) (s : string) {struct fuel}
  : option (list value * string) :=
  match fuel with
  | O => None
  | S fuel =>
      '(x, rest) ← parse_value fuel s;
      match skip_ws rest with
      | String c rest =>
          if is_code c 44 then
            '(xs, rest) ← parse_elements fuel rest; Some (x :: xs, rest)
          else if is_code c 93 then Some ([x], rest)
          else None
      | EmptyString => None
      end
  end
with parse_members (fuel : nat) (s : string) {struct fuel}
  : option (list (string * value) * string) :=
  match fuel with
  | O => None
  | S fuel =>
      match skip_ws s with
      | String c rest =>
          if is_code c 34 then
            '(key, rest) ← parse_chars rest;
            match skip_ws rest with
            | String c rest =>
                if is_code c 58 then
                  '(x, rest) ← parse_value fuel rest;
                  match skip_ws rest with
                  | String c rest =>
                      if is_code c 44 then
                        '(props, rest) ← parse_members fuel rest;
                        Some ((key, x) :: props, rest)
                      else if is_code c 125 then Some ([(key, x)], rest)
                      else None
                  | EmptyString => None
                  end
                else None
            | EmptyString => None
            end
          else None
      | EmptyString => None
      end
  end.

Definition parse (s : string) : option value :=
  '(v, rest) ← parse_value (2 * String.length s + 2) s;
  match skip_ws rest with
  | EmptyString => Some v
  | String _ _ => None
  end.

(** *** Printing *)

Definition hex (n : nat) : string :=
  chr (if bool_decide (n < 10) then 48 + n else 87 + n).

Definition escape_char (c : ascii) : string :=
  let n := nat_of_ascii c in
  if is_code c 34 || is_code c 92 then chr 92 +:+ String c EmptyString
  else if is_code c 8 then chr 92 +:+ "b"
  else if is_code c 9 then chr 92 +:+ "t"
  else if is_code c 10 then chr 92 +:+ "n"
  else if is_code c 12 then chr 92 +:+ "f"
  else if is_code c 13 then chr 92 +:+ "r"
  else if bool_decide (n < 32) then chr 92 +:+ "u00" +:+ hex (n / 16) +:+ hex (n mod 16)
  else String c EmptyString.

Fixpoint escape (s : string) : string :=
  match s with
  | EmptyString => EmptyString
  | String c rest => escape_char c +:+ escape rest
  end.

Definition quoted (s : string) : string := quote +:+ escape s +:+ quote.

(** The least [k ≤ fuel] with [d] dividing [10 ^ k]. *)
Fixpoint decimals (fuel : nat) (d : Z) (k : nat) : option nat :=
  if bool_decide ((10 ^ Z.of_nat k) `mod` d = 0)%Z then Some k
  else match fuel with
       | O => None
       | S fuel => decimals fuel d (S k)
       end.

Fixpoint pad_left (width : nat) (s : string) : string :=
  match width with
  | O => s
  | S width =>
      if bool_decide (String.length s ≤ width) then pad_left width ("0" +:+ s) else s
  end.

(** Plain decimal notation; integers print without a fraction. *)
Definition number_text (q : Q) : string :=
  let q := Qreduction.Qred q in
  let n := QArith_base.Qnum q in
  let d := Z.pos (QArith_base.Qden q) in
  match decimals 400 d 0 with
  | Some k =>
      let scaled := (Z.abs n * 10 ^ Z.of_nat k `div` d)%Z in
      let int := (scaled `div` 10 ^ Z.of_nat k)%Z in
      let frac := (scaled `mod` 10 ^ Z.of_nat k)%Z in
      (if bool_decide (n < 0)%Z then "-" else EmptyString)
      +:+ pretty int
      +:+ (if bool_decide (k = 0) then EmptyString
           else "." +:+ pad_left k (pretty frac))
  | None => "null"
  end.

Fixpoint stringify (v : value) : string :=
  match v with
  | VUndefined | VNull => "null"
  | VBool true => "true"
  | VBool false => "false"
  | VNum q => number_text q
  | VStr s => quoted s
  | VArr elems => "[" +:+ String.concat "," (map stringify elems) +:+ "]"
  | VObj props =>
      "{" +:+ String.concat ","
                (map (λ p, quoted (fst p) +:+ ":" +:+ stringify (snd p)) props)
          +:+ "}"
  end.

Fixpoint to_string (v : value) : string :=
  match v with
  | VUndefined => "undefined"
  | VNull => "null"
  | VBool true => "true"
  | VBool false => "false"
  | VNum q => number_text q
  | VStr s => s
  | VArr elems =>
      String.concat ","
        (map (λ x, match x with
                   | VUndefined | VNull => EmptyString
                   | _ => to_string x
                   end) elems)
  | VObj _ => "[object Object]"
  end.

(** The code points of a string: a byte followed by its continuation bytes. *)
Definition continuation (s : string) : bool :=
  match s with
  | String c _ => bool_decide (128 ≤ nat_of_ascii c < 192)
  | EmptyString => false
  end.

Fixpoint code_points (s : string) : list string :=
  match s with
  | EmptyString => []
  | String c rest =>
      match code_points rest with
      | next :: others =>
          if continuation rest then String c next :: others
          else String c EmptyString :: next :: others
      | [] => [String c EmptyString]
      end
  end.

Definition host : Host := {|
  JSON_parse := parse;
  JSON_stringify := stringify;
  ToString := to_string;
  string_iterator := code_points
|}.

End Reference.

(** ** Concrete worlds

    Worlds for running the module on the reference host. *)

Module Worlds.

(** The text the reference host prints for a configuration, for instance
    [{"isAdmin":true,"enabledRegions":["AR"]}]. *)
Definition admin_json (admin : bool) (codes : list string) : string :=
  Reference.stringify (AdminConfig_object (admin_config admin codes)).

(** A browser where the admin slot holds [text], the environment variable is
    [env] and the mapping engine is [maps]. *)
Definition browser (text : string) (env : option string)
    (maps : option (string → GeocoderResponse)) : World :=
  {| localStorage := {[ ADMIN_KEY := text ]};
     VITE_ADMIN_ENABLED := env;
     google_maps := maps |}.

(** A browser on first visit: nothing stored, no environment variable. *)
Definition fresh (maps : option (string → GeocoderResponse)) : World :=
  {| localStorage := ∅; VITE_ADMIN_ENABLED := None; google_maps := maps |}.

Definition candidate (city country_code country_name : string) : GeocoderResult :=
  {| address_components :=
       [ {| long_name := city; short_name := city;
            types := ["locality"; "political"] |};
         {| long_name := country_name; short_name := country_code;
            types := ["country"; "political"] |} ] |}.

(** A geocoding service that knows two addresses. *)
Definition geocoder (address : string) : GeocoderResponse :=
  if bool_decide (address = "Santiago, Chile") then
    {| results := Some [candidate "Santiago" "CL" "Chile"]; status := OK |}
  else if bool_decide (address = "Mendoza, Argentina") then
    {| results := Some [candidate "Mendoza" "AR" "Argentina"]; status := OK |}
  else {| results := Some []; status := ZERO_RESULTS |}.

End Worlds.

(** * Properties *)

Section Properties.
Context `{Host}.

(** ** Membership tests on region codes *)

Lemma SameValueZero_code (s : string) (x : value) :
  SameValueZero (VStr s) x = true ↔ x = VStr s.
Proof.
  destruct x; simpl; try (split; [discriminate | intros [=]]).
  rewrite bool_decide_eq_true. split; [intros -> | intros [= ->]]; done.
Qed.

Lemma SameValueZero_code_l (s : string) (x : value) :
  SameValueZero x (VStr s) = true ↔ x = VStr s.
Proof.
  destruct x; simpl; try (split; [discriminate | intros [=]]).
  rewrite bool_decide_eq_true. split; [intros -> | intros [= ->]]; done.
Qed.

Lemma includes_code (xs : list value) (s : string) :
  includes xs (VStr s) = true ↔ VStr s ∈ xs.
Proof.
  unfold includes. induction xs as [|x xs IH]; cbn [existsb].
  - rewrite elem_of_nil. split; [discriminate | tauto].
  - rewrite orb_true_iff, IH, elem_of_cons, SameValueZero_code.
    split; (intros [?|?]; [left | right]); done.
Qed.

Lemma includes_code_false (xs : list value) (s : string) :
  includes xs (VStr s) = false ↔ VStr s ∉ xs.
Proof.
  rewrite <- includes_code. destruct (includes xs (VStr s)); split; done.
Qed.

(** ** The loops of the resolver on lists of codes *)

Lemma default_regions_eq : default_regions = [VStr "CL"].
Proof. reflexivity. Qed.

Lemma add_admin_codes_cons (enabled codes : list value) (x : value) :
  add_admin_codes enabled (x :: codes) =
  add_admin_codes (if includes enabled x then enabled else enabled ++ [x]) codes.
Proof.
  unfold add_admin_codes, push. simpl. by destruct (includes enabled x).
Qed.

Lemma elem_of_add_admin_codes (codes enabled : list value) (s : string) :
  VStr s ∈ add_admin_codes enabled codes ↔ VStr s ∈ enabled ∨ VStr s ∈ codes.
Proof.
  revert enabled. induction codes as [|x codes IH]; intros enabled.
  - simpl. rewrite elem_of_nil. tauto.
  - rewrite add_admin_codes_cons, IH, elem_of_cons.
    destruct (includes enabled x) eqn:Hin.
    + split; [tauto|]. intros [?|[<-|?]]; [tauto | | tauto].
      left. by apply includes_code.
    + rewrite elem_of_app, list_elem_of_singleton. tauto.
Qed.

Lemma NoDup_add_admin_codes (l : list string) (enabled : list value) :
  NoDup enabled → NoDup (add_admin_codes enabled (VStr <$> l)).
Proof.
  revert enabled. induction l as [|c l IH]; intros enabled Hnd; [done|].
  rewrite fmap_cons, add_admin_codes_cons. apply IH.
  destruct (includes enabled (VStr c)) eqn:Hin; [done|].
  apply includes_code_false in Hin.
  apply NoDup_app. split_and!; [done | | apply NoDup_singleton].
  intros x Hx ->%list_elem_of_singleton. done.
Qed.

(** The third loop finds every code it looks for already pushed. *)
Lemma add_adminOnly_regions_done (enabled codes : list value) :
  (∀ s, VStr s ∈ codes → VStr s ∈ enabled) →
  add_adminOnly_regions enabled codes = enabled.
Proof.
  intros Hsub. unfold add_adminOnly_regions.
  induction (Object_values REGION_CONFIG) as [|region regions IH]; [done|].
  simpl. rewrite <- IH at 2. f_equal.
  destruct (RegionConfig.adminOnly region); [|done]. simpl.
  destruct (includes codes _) eqn:Hc; [|done].
  apply includes_code, Hsub, includes_code in Hc. by rewrite Hc.
Qed.

(** What the resolver returns for a configuration of the declared type. *)
Lemma getEnabledRegions_typed (w : World) (admin : bool) (codes : list string) :
  getAdminConfig w = admin_config admin codes →
  getEnabledRegions w =
  Return (if admin then add_admin_codes [VStr "CL"] (VStr <$> codes)
          else [VStr "CL"]).
Proof.
  intros Hcfg. unfold getEnabledRegions. rewrite Hcfg. simpl.
  destruct admin; [|done].
  rewrite add_adminOnly_regions_done; [done|].
  intros s Hs. apply elem_of_add_admin_codes. by right.
Qed.

#[local] Instance VStr_inj : Inj (=) (=) VStr.
Proof. by intros ?? [=]. Qed.

Lemma in_registry_iff (key : string) :
  in_registry key ↔ key ∈ ["CL"; "AR"; "PE"; "BO"; "CO"].
Proof.
  unfold in_registry, assoc, REGION_CONFIG. simpl.
  repeat (case_decide; [subst; split; [intros _; by repeat constructor | by eexists]|]).
  simpl. split; [by intros [? [=]] |].
  intros Hin. repeat (apply elem_of_cons in Hin as [?|Hin]; [done|]).
  by apply elem_of_nil in Hin.
Qed.

Lemma registry_regions (region : RegionConfig.t) :
  region ∈ Object_values REGION_CONFIG →
  RegionConfig.code region ∈ ["CL"; "AR"; "PE"; "BO"; "CO"] ∧
  (RegionConfig.adminOnly region = false ↔ RegionConfig.code region = "CL").
Proof.
  unfold Object_values, REGION_CONFIG. simpl. intros Hin.
  repeat (apply elem_of_cons in Hin as [->|Hin];
          [simpl; split; [by repeat constructor | by split]|]).
  by apply elem_of_nil in Hin.
Qed.

(** ** The resolver *)

(** C5: a registry code with [adminOnly = true] is in the list the resolver
    returns exactly when the configuration has [isAdmin = true] and lists the
    code among its [enabledRegions]. *)
Theorem adminOnly_code_enabled_iff
  (w : World) (admin : bool) (codes : list string) (region : RegionConfig.t) :
  getAdminConfig w = admin_config admin codes →
  region ∈ Object_values REGION_CONFIG →
  RegionConfig.adminOnly region = true →
  ∃ enabled, getEnabledRegions w = Return enabled ∧
    (VStr (RegionConfig.code region) ∈ enabled ↔
     admin = true ∧ RegionConfig.code region ∈ codes).
Proof.
  intros Hcfg Hreg Hadm. rewrite (getEnabledRegions_typed w admin codes Hcfg).
  eexists; split; [done|].
  assert (RegionConfig.code region ≠ "CL") as Hne.
  { intros Hcl. apply registry_regions in Hreg as [_ Hiff].
    apply Hiff in Hcl. congruence. }
  destruct admin.
  - rewrite elem_of_add_admin_codes, list_elem_of_singleton, list_elem_of_fmap_inj by apply _.
    split; [intros [[=]|?]; done | intros [_ ?]; by right].
  - rewrite list_elem_of_singleton. split; [intros [=]; done | intros [[=] _]].
Qed.

(** C6: a registry code with [adminOnly = false] is in the list the resolver
    returns, whatever [isAdmin] and the stored [enabledRegions] are. *)
Theorem default_code_always_enabled
  (w : World) (admin : bool) (codes : list string) (region : RegionConfig.t) :
  getAdminConfig w = admin_config admin codes →
  region ∈ Object_values REGION_CONFIG →
  RegionConfig.adminOnly region = false →
  ∃ enabled, getEnabledRegions w = Return enabled ∧
    VStr (RegionConfig.code region) ∈ enabled.
Proof.
  intros Hcfg Hreg Hadm. rewrite (getEnabledRegions_typed w admin codes Hcfg).
  apply registry_regions in Hreg as [_ Hiff]. apply Hiff in Hadm as ->.
  eexists; split; [done|]. destruct admin.
  - apply elem_of_add_admin_codes. left. by constructor.
  - by constructor.
Qed.

(** C10: the list the resolver returns holds each code at most once, also
    when the stored [enabledRegions] repeats codes. *)
Theorem enabled_regions_NoDup (w : World) (admin : bool) (codes : list string) :
  getAdminConfig w = admin_config admin codes →
  ∃ enabled, getEnabledRegions w = Return enabled ∧ NoDup enabled.
Proof.
  intros Hcfg. rewrite (getEnabledRegions_typed w admin codes Hcfg).
  eexists; split; [done|]. destruct admin.
  - apply NoDup_add_admin_codes, NoDup_singleton.
  - apply NoDup_singleton.
Qed.

(** C1, as amended: a code that the registry does not declare is in the list
    the resolver returns exactly when the configuration has [isAdmin = true]
    and lists the code among its [enabledRegions]; the resolver does not drop
    the codes the registry does not know. *)
Theorem unregistered_code_enabled_iff
  (w : World) (admin : bool) (codes : list string) (code : string) :
  getAdminConfig w = admin_config admin codes →
  ¬ in_registry code →
  ∃ enabled, getEnabledRegions w = Return enabled ∧
    (VStr code ∈ enabled ↔ admin = true ∧ code ∈ codes).
Proof.
  intros Hcfg Hreg. rewrite (getEnabledRegions_typed w admin codes Hcfg).
  eexists; split; [done|].
  assert (code ≠ "CL") as Hne.
  { intros ->. apply Hreg, in_registry_iff. by constructor. }
  destruct admin.
  - rewrite elem_of_add_admin_codes, list_elem_of_singleton, list_elem_of_fmap_inj by apply _.
    split; [intros [[=]|?]; done | intros [_ ?]; by right].
  - rewrite list_elem_of_singleton. split; [intros [=]; done | intros [[=] _]].
Qed.

(** ** Reading the stored configuration *)

Lemma getAdminConfig_absent (w : World) :
  getItem ADMIN_KEY w = None →
  getAdminConfig w =
  admin_config (bool_decide (VITE_ADMIN_ENABLED w = Some "true")) [].
Proof. intros Hget. unfold getAdminConfig. by rewrite Hget. Qed.

(** An empty stored string is falsy: it is read like an absent key. *)
Lemma getAdminConfig_empty (w : World) :
  getItem ADMIN_KEY w = Some EmptyString →
  getAdminConfig w =
  admin_config (bool_decide (VITE_ADMIN_ENABLED w = Some "true")) [].
Proof. intros Hget. unfold getAdminConfig. by rewrite Hget. Qed.

Lemma getAdminConfig_parsed (w : World) (adminFromStorage : string) (parsed : value) :
  getItem ADMIN_KEY w = Some adminFromStorage →
  adminFromStorage ≠ EmptyString →
  JSON_parse adminFromStorage = Some parsed →
  getAdminConfig w =
  try_catch
    (a ← get_field parsed "isAdmin";
     e ← get_field parsed "enabledRegions";
     Return {| isAdmin := or_else a (VBool false);
               enabledRegions := or_else e (VArr []) |})
    (admin_config false []).
Proof.
  intros Hget Hne Hparse. unfold getAdminConfig. rewrite Hget. simpl.
  rewrite bool_decide_eq_false_2 by done. simpl. by rewrite Hparse.
Qed.

(** C7, as amended: a stored string that is not empty and that is not valid
    JSON, or whose parse is not an object, makes [getAdminConfig] return
    [{isAdmin: false, enabledRegions: []}]; nothing is raised.  (An empty
    stored string is read like an absent key.) *)
Theorem malformed_admin_json (w : World) (adminFromStorage : string) :
  getItem ADMIN_KEY w = Some adminFromStorage →
  adminFromStorage ≠ EmptyString →
  (JSON_parse adminFromStorage = None ∨
   ∃ parsed, JSON_parse adminFromStorage = Some parsed ∧ is_object parsed = false) →
  getAdminConfig w = admin_config false [].
Proof.
  intros Hget Hne [Hparse | (parsed & Hparse & Hobj)].
  - unfold getAdminConfig. rewrite Hget. simpl.
    rewrite bool_decide_eq_false_2 by done. simpl. by rewrite Hparse.
  - rewrite (getAdminConfig_parsed w _ _ Hget Hne Hparse).
    by destruct parsed.
Qed.

(** ** The admin toggle *)

(** C4: without [isAdmin] the toggle raises the authorization fault, for any
    region code and either direction, and the world, hence the stored slot,
    is the one it started from. *)
Theorem toggle_unauthorized (w : World) (regionCode : string) (enabled : bool) :
  isAdmin (getAdminConfig w) = VBool false →
  toggleRegionForAdmin regionCode enabled w =
  (Throw (Error "No tienes permisos de administrador"), w).
Proof. intros Hadmin. unfold toggleRegionForAdmin. by rewrite Hadmin. Qed.

(** The codes that [REGION_CONFIG[regionCode]] does not find are those that
    neither the registry declares nor [Object.prototype] defines. *)
Lemma REGION_CONFIG_get_Missing (regionCode : string) :
  REGION_CONFIG_get regionCode = Missing ↔
  ¬ in_registry regionCode ∧ regionCode ∉ Object_prototype.*1.
Proof.
  unfold REGION_CONFIG_get, in_registry.
  destruct (assoc regionCode REGION_CONFIG) as [region|] eqn:Hown.
  { split; [done | intros [[] _]; by eexists]. }
  assert (¬ is_Some (@None RegionConfig.t)) as Hnone by (by intros [? [=]]).
  unfold assoc, Object_prototype. simpl.
  repeat (case_decide;
          [subst; simpl; split; [done | intros [_ []]; by repeat constructor]|]).
  simpl. split; [intros _; split; [done|] | done].
  intros Hin. repeat (apply elem_of_cons in Hin as [?|Hin]; [done|]).
  by apply elem_of_nil in Hin.
Qed.

(** A code that [REGION_CONFIG[regionCode]] does not find is refused before
    anything is written. *)
Lemma toggle_missing_region (w : World) (regionCode : string) (enabled : bool) :
  truthy (isAdmin (getAdminConfig w)) = true →
  REGION_CONFIG_get regionCode = Missing →
  toggleRegionForAdmin regionCode enabled w =
  (Throw (Error ("Región " +:+ regionCode +:+ " no encontrada")), w).
Proof.
  intros Hadmin Hget. unfold toggleRegionForAdmin. by rewrite Hadmin, Hget.
Qed.

(** *** Toggling on, then off *)

Lemma Set_spread_add_admin_codes (xs : list value) :
  Set_spread xs = add_admin_codes [] xs.
Proof.
  unfold Set_spread, add_admin_codes. generalize (@nil value).
  induction xs as [|x xs IH]; intros seen; [done|].
  simpl. rewrite IH. by destruct (includes seen x).
Qed.

Lemma add_admin_codes_snoc (enabled codes : list value) (x : value) :
  add_admin_codes enabled (codes ++ [x]) =
  let enabled := add_admin_codes enabled codes in
  if includes enabled x then enabled else enabled ++ [x].
Proof.
  unfold add_admin_codes, push. rewrite foldl_app. simpl.
  by destruct (includes _ x).
Qed.

(** Pushing a list that was itself built by pushing gives the same result as
    pushing the original codes. *)
Lemma add_admin_codes_twice (l : list string) (enabled seen : list value) :
  add_admin_codes enabled (add_admin_codes seen (VStr <$> l)) =
  add_admin_codes (add_admin_codes enabled seen) (VStr <$> l).
Proof.
  induction l as [|c l IH] using rev_ind; [done|].
  rewrite fmap_app. simpl. rewrite !add_admin_codes_snoc. simpl.
  rewrite <- IH.
  destruct (includes (add_admin_codes seen (VStr <$> l)) (VStr c)) eqn:Hin.
  - assert (includes (add_admin_codes enabled (add_admin_codes seen (VStr <$> l)))
              (VStr c) = true) as ->; [|done].
    apply includes_code, elem_of_add_admin_codes. right.
    by apply includes_code.
  - by rewrite add_admin_codes_snoc.
Qed.

Lemma elem_of_Set_spread (l : list string) (c : string) :
  VStr c ∈ Set_spread (VStr <$> l) ↔ c ∈ l.
Proof.
  rewrite Set_spread_add_admin_codes, elem_of_add_admin_codes, elem_of_nil.
  rewrite list_elem_of_fmap_inj by apply _. tauto.
Qed.

Lemma Set_spread_snoc_new (l : list string) (c : string) :
  c ∉ l →
  Set_spread ((VStr <$> l) ++ [VStr c]) = Set_spread (VStr <$> l) ++ [VStr c].
Proof.
  intros Hnew. rewrite !Set_spread_add_admin_codes, add_admin_codes_snoc. simpl.
  rewrite <- Set_spread_add_admin_codes.
  destruct (includes _ (VStr c)) eqn:Hin; [|done].
  by apply includes_code, elem_of_Set_spread in Hin.
Qed.

Lemma Set_spread_NoDup (l : list string) :
  NoDup l → Set_spread (VStr <$> l) = VStr <$> l.
Proof.
  induction l as [|c l IH] using rev_ind; [done|].
  rewrite NoDup_app. intros (Hnd & Hdisj & _).
  rewrite fmap_app. simpl. rewrite Set_spread_snoc_new, IH; [done..|].
  intros Hin. apply (Hdisj c Hin). by constructor.
Qed.

(** [filter] keeps a list that does not hold the code it removes. *)
Lemma filter_out_absent (xs : list value) (regionCode : string) :
  VStr regionCode ∉ xs →
  List.filter (λ code, negb (SameValueZero code (VStr regionCode))) xs = xs.
Proof.
  induction xs as [|x xs IH]; [done|].
  rewrite not_elem_of_cons. intros [Hne Hxs]. simpl.
  destruct (SameValueZero x (VStr regionCode)) eqn:Heq.
  - apply SameValueZero_code_l in Heq. congruence.
  - simpl. by rewrite IH.
Qed.

Lemma filter_out_snoc (xs : list value) (regionCode : string) :
  VStr regionCode ∉ xs →
  List.filter (λ code, negb (SameValueZero code (VStr regionCode)))
              (xs ++ [VStr regionCode]) = xs.
Proof.
  intros Hxs. rewrite List.filter_app, filter_out_absent by done. simpl.
  rewrite bool_decide_eq_true_2 by done. simpl. apply app_nil_r.
Qed.

(** Reading back a configuration that the toggle wrote. *)
Lemma getAdminConfig_setItem (w : World) (codes : list value) :
  round_trips {| isAdmin := VBool true; enabledRegions := VArr codes |} →
  getAdminConfig
    (setItem ADMIN_KEY
       (JSON_stringify
          (AdminConfig_object {| isAdmin := VBool true; enabledRegions := VArr codes |}))
       w) =
  {| isAdmin := VBool true; enabledRegions := VArr codes |}.
Proof.
  intros [Hne Hparse].
  rewrite (getAdminConfig_parsed _ _ _ (lookup_insert_eq _ _ _) Hne Hparse).
  reflexivity.
Qed.

Lemma in_registry_get (regionCode : string) :
  in_registry regionCode →
  ∃ region, REGION_CONFIG_get regionCode = OwnRegion region.
Proof.
  intros [region Hregion]. exists region. unfold REGION_CONFIG_get.
  by rewrite Hregion.
Qed.

(** C3, as amended: for an admin and a registry code that the stored
    [enabledRegions] does not list yet, enabling the code and then disabling
    it leaves the stored list with the codes it had (the very list when it
    had no repetition) and the resolver with the list it returned before.
    The host is asked to read back the two configurations that get
    written. *)
Theorem toggle_on_off_restores (w : World) (codes : list string) (regionCode : string) :
  getAdminConfig w = admin_config true codes →
  in_registry regionCode →
  regionCode ∉ codes →
  round_trips {| isAdmin := VBool true;
                 enabledRegions := VArr (Set_spread (VStr <$> codes) ++ [VStr regionCode]) |} →
  round_trips {| isAdmin := VBool true;
                 enabledRegions := VArr (Set_spread (VStr <$> codes)) |} →
  ∃ w1 w2,
    toggleRegionForAdmin regionCode true w = (Return (), w1) ∧
    toggleRegionForAdmin regionCode false w1 = (Return (), w2) ∧
    getAdminConfig w2 =
      {| isAdmin := VBool true; enabledRegions := VArr (Set_spread (VStr <$> codes)) |} ∧
    (∀ c, VStr c ∈ Set_spread (VStr <$> codes) ↔ c ∈ codes) ∧
    (NoDup codes → getAdminConfig w2 = getAdminConfig w) ∧
    getEnabledRegions w2 = getEnabledRegions w.
Proof.
  intros Hcfg Hreg Hnew Hrt1 Hrt2.
  destruct (in_registry_get regionCode Hreg) as [region Hget].
  eexists _, _. split_and!.
  - unfold toggleRegionForAdmin. rewrite Hcfg, Hget. simpl.
    rewrite Set_spread_snoc_new by done. reflexivity.
  - unfold toggleRegionForAdmin.
    rewrite (getAdminConfig_setItem w _ Hrt1), Hget. simpl.
    rewrite filter_out_snoc by (by rewrite elem_of_Set_spread). reflexivity.
  - apply (getAdminConfig_setItem _ _ Hrt2).
  - apply elem_of_Set_spread.
  - intros Hnd. rewrite (getAdminConfig_setItem _ _ Hrt2), Hcfg.
    by rewrite Set_spread_NoDup.
  - rewrite (getEnabledRegions_typed w true codes Hcfg).
    unfold getEnabledRegions. rewrite (getAdminConfig_setItem _ _ Hrt2). simpl.
    rewrite add_adminOnly_regions_done.
    + by rewrite Set_spread_add_admin_codes, add_admin_codes_twice.
    + intros s Hs. apply elem_of_add_admin_codes. by right.
Qed.

(** ** The validators *)

(** C9: while the mapping engine is not loaded, validating any address
    returns [valid = false], no country code and a message that is not empty;
    nothing is raised. *)
Theorem validate_address_engine_not_loaded (w : World) (address : string) :
  google_maps w = None →
  validateAddressRegion w address =
    Return (AddressValidation.mk false None (Some "Google Maps no está cargado")) ∧
  "Google Maps no está cargado" ≠ EmptyString.
Proof.
  intros Hmaps. unfold validateAddressRegion. by rewrite Hmaps.
Qed.

Lemma validateAddressRegion_geocoded
  (w : World) (address : string) (country : AddressComponent)
  (enabledRegions : list value) :
  geocodes_to w address country →
  short_name country ≠ EmptyString →
  getEnabledRegions w = Return enabledRegions →
  validateAddressRegion w address =
  Return
    (if includes enabledRegions (VStr (short_name country)) then
       AddressValidation.mk true (Some (short_name country)) None
     else
       AddressValidation.mk false (Some (short_name country))
         (Some ("Las rutas fuera de " +:+ allowed_names enabledRegions
                +:+ " no están permitidas. Contacta a un administrador para habilitar "
                +:+ string_or (Some (long_name country)) (short_name country)
                +:+ "."))).
Proof.
  intros (geocode & first & others & Hmaps & Hstatus & Hresults & Hfind) Hne Hen.
  unfold validateAddressRegion. rewrite Hmaps, Hen. simpl.
  rewrite Hstatus, Hresults, Hfind. simpl.
  rewrite bool_decide_eq_false_2 by done.
  by destruct (includes enabledRegions _).
Qed.

(** C2, as amended: under the default configuration, an origin geocoded to
    [CL] and a destination geocoded to [AR] give [valid = false] and two
    errors, both about the destination: the one of its address validation and
    the one of the route's own check of the destination code. *)
Theorem route_CL_to_AR_default
  (w : World) (origin destination : string)
  (originCountry destinationCountry : AddressComponent) :
  getAdminConfig w = admin_config false [] →
  geocodes_to w origin originCountry →
  short_name originCountry = "CL" →
  geocodes_to w destination destinationCountry →
  short_name destinationCountry = "AR" →
  validateRouteRegions w origin destination =
  Return (RouteValidation.mk false
    [ "Destino: Las rutas fuera de Chile no están permitidas. Contacta a un administrador para habilitar "
      +:+ string_or (Some (long_name destinationCountry)) "AR" +:+ ".";
      "El destino debe estar en Chile" ]).
Proof.
  intros Hcfg Horigin Hcl Hdestination Har.
  pose proof (getEnabledRegions_typed w false [] Hcfg) as Hen.
  unfold validateRouteRegions.
  rewrite (validateAddressRegion_geocoded w origin _ _ Horigin) by (by rewrite ?Hcl).
  rewrite (validateAddressRegion_geocoded w destination _ _ Hdestination)
    by (by rewrite ?Har).
  rewrite Hcl, Har, Hen. reflexivity.
Qed.

End Properties.

(** * The reference host reads back what it prints *)

Section ReferenceHost.
Import Reference.

Lemma string_append_assoc (a b c : string) : (a +:+ b) +:+ c = a +:+ b +:+ c.
Proof.
  induction a as [|x a IH]; [done|].
  change (String x ((a +:+ b) +:+ c) = String x (a +:+ b +:+ c)). by rewrite IH.
Qed.

Lemma parse_chars_escape_char (c : ascii) (tail : string) :
  parse_chars (escape_char c +:+ tail) =
  '(str, rest) ← parse_chars tail; Some (String c str, rest).
Proof. destruct c as [[] [] [] [] [] [] [] []]; reflexivity. Qed.

Lemma parse_chars_escape (s rest : string) :
  parse_chars (escape s +:+ quote +:+ rest) = Some (s, rest).
Proof.
  induction s as [|c s IH]; [done|].
  cbn [escape]. rewrite string_append_assoc, parse_chars_escape_char, IH. done.
Qed.

Lemma map_stringify_codes (l : list string) :
  map stringify (VStr <$> l) = quoted <$> l.
Proof.
  induction l as [|c l IH]; [done|].
  change (quoted c :: map stringify (VStr <$> l) = quoted c :: (quoted <$> l)).
  by rewrite IH.
Qed.

Lemma parse_value_quoted (fuel : nat) (c tail : string) :
  parse_value (S fuel) (quoted c +:+ tail) = Some (VStr c, tail).
Proof.
  unfold quoted. rewrite !string_append_assoc.
  transitivity ('(str, rest) ← parse_chars (escape c +:+ quote +:+ tail);
                Some (VStr str, rest)); [reflexivity|].
  by rewrite parse_chars_escape.
Qed.

Section Elements.
#[local] Arguments parse_value : simpl never.

(** The elements of a printed array of codes, up to the closing bracket. *)
Lemma parse_elements_codes (l : list string) (c : string) (rest : string) (fuel : nat) :
  length l < fuel →
  parse_elements (S fuel) (String.concat "," (quoted <$> c :: l) +:+ "]" +:+ rest) =
  Some (VStr <$> c :: l, rest).
Proof.
  revert c fuel. induction l as [|c' l IH]; intros c fuel Hfuel.
  - destruct fuel as [|fuel]; [simpl in Hfuel; lia|].
    simpl. rewrite parse_value_quoted. reflexivity.
  - destruct fuel as [|fuel]; [simpl in Hfuel; lia|].
    change (String.concat "," (quoted <$> c :: c' :: l))
      with (quoted c +:+ "," +:+ String.concat "," (quoted <$> c' :: l)).
    rewrite !string_append_assoc.
    simpl parse_elements at 1. rewrite parse_value_quoted.
    change (parse_elements (S fuel)
              (String.concat "," (quoted <$> c' :: l) +:+ "]" +:+ rest)
            ≫= (λ '(xs, rest), Some (VStr c :: xs, rest)) =
            Some (VStr <$> c :: c' :: l, rest)).
    rewrite IH by (simpl in Hfuel; lia). reflexivity.
Qed.

End Elements.

Lemma parse_value_codes (l : list string) (rest : string) (fuel : nat) :
  length l < fuel →
  parse_value (S fuel) ("[" +:+ String.concat "," (quoted <$> l) +:+ "]" +:+ rest) =
  Some (VArr (VStr <$> l), rest).
Proof.
  intros Hfuel. destruct l as [|c l]; [reflexivity|].
  destruct fuel as [|fuel]; [simpl in Hfuel; lia|].
  transitivity
    ('(elems, rest) ←
       parse_elements (S fuel) (String.concat "," (quoted <$> c :: l) +:+ "]" +:+ rest);
     Some (VArr elems, rest)).
  - destruct l; reflexivity.
  - rewrite parse_elements_codes by (simpl in Hfuel; lia). reflexivity.
Qed.

Lemma stringify_admin_config (admin : bool) (codes : list string) :
  stringify (AdminConfig_object (admin_config admin codes)) =
  "{" +:+ quoted "isAdmin" +:+ ":" +:+ (if admin then "true" else "false") +:+ ","
      +:+ quoted "enabledRegions" +:+ ":"
      +:+ "[" +:+ String.concat "," (quoted <$> codes) +:+ "]" +:+ "}".
Proof.
  rewrite <- map_stringify_codes. destruct admin.
  - change (stringify (AdminConfig_object (admin_config true codes)))
      with ("{" +:+ ((quoted "isAdmin" +:+ ":true") +:+ ","
                     +:+ (quoted "enabledRegions" +:+ ":"
                          +:+ "[" +:+ String.concat "," (map stringify (VStr <$> codes)) +:+ "]"))
                +:+ "}").
    rewrite !string_append_assoc. reflexivity.
  - change (stringify (AdminConfig_object (admin_config false codes)))
      with ("{" +:+ ((quoted "isAdmin" +:+ ":false") +:+ ","
                     +:+ (quoted "enabledRegions" +:+ ":"
                          +:+ "[" +:+ String.concat "," (map stringify (VStr <$> codes)) +:+ "]"))
                +:+ "}").
    rewrite !string_append_assoc. reflexivity.
Qed.

Section Config.
#[local] Arguments String.append !_ _ / : simpl nomatch.

Lemma parse_value_admin_config (admin : bool) (codes : list string) (fuel : nat) :
  length codes < fuel →
  parse_value (S (S (S (S fuel))))
    (stringify (AdminConfig_object (admin_config admin codes))) =
  Some (AdminConfig_object (admin_config admin codes), EmptyString).
Proof.
  intros Hfuel. rewrite stringify_admin_config.
  pose proof (parse_value_codes codes "}" fuel Hfuel) as Harray.
  remember (S fuel) as f eqn:Hf. clear Hf.
  destruct admin; simpl in *; rewrite Harray; reflexivity.
Qed.
End Config.

Lemma string_length_append (a b : string) :
  String.length (a +:+ b) = String.length a + String.length b.
Proof.
  induction a as [|x a IH]; [done|].
  change (S (String.length (a +:+ b)) = S (String.length a + String.length b)).
  by rewrite IH.
Qed.

Lemma length_concat_quoted (l : list string) :
  length l ≤ String.length (String.concat "," (quoted <$> l)).
Proof.
  induction l as [|c l IH]; [done|].
  destruct l as [|c' l].
  - unfold quoted. simpl String.concat. rewrite !string_length_append. simpl. lia.
  - change (String.concat "," (quoted <$> c :: c' :: l))
      with (quoted c +:+ "," +:+ String.concat "," (quoted <$> c' :: l)).
    rewrite !string_length_append. simpl in *. lia.
Qed.

(** The reference host reads back every configuration of the declared type:
    the assumption [round_trips] of the toggle round trip holds on it for
    whatever gets written. *)
Lemma reference_round_trips (admin : bool) (codes : list string) :
  @round_trips Reference.host (admin_config admin codes).
Proof.
  unfold round_trips. cbn [JSON_stringify JSON_parse host]. split.
  - rewrite stringify_admin_config. discriminate.
  - unfold parse.
    assert (length codes + 2 ≤
            String.length (stringify (AdminConfig_object (admin_config admin codes))))
      as Hlen.
    { rewrite stringify_admin_config, !string_length_append.
      pose proof (length_concat_quoted codes). simpl. lia. }
    destruct (String.length _) as [|[|n]]; [lia..|].
    replace (2 * S (S n) + 2) with (S (S (S (S (2 * n + 2))))) by lia.
    rewrite parse_value_admin_config by lia. reflexivity.
Qed.

End ReferenceHost.

(** * The statements on concrete worlds *)

Section Runs.
Import Worlds.
#[local] Existing Instance Reference.host.

Example admin_json_text :
  admin_json true ["AR"] =
  "{" +:+ Reference.quoted "isAdmin" +:+ ":true,"
      +:+ Reference.quoted "enabledRegions" +:+ ":[" +:+ Reference.quoted "AR" +:+ "]}".
Proof. reflexivity. Qed.

Lemma AR_in_registry :
  RegionConfig.mk "AR" "Argentina" false true ∈ Object_values REGION_CONFIG.
Proof. by repeat constructor. Qed.

Lemma CL_in_registry :
  RegionConfig.mk "CL" "Chile" true false ∈ Object_values REGION_CONFIG.
Proof. by repeat constructor. Qed.

Lemma adminOnly_code_enabled_iff_witness :
  let w := browser (admin_json true ["PE"; "AR"]) None None in
  let region := RegionConfig.mk "AR" "Argentina" false true in
  getAdminConfig w = admin_config true ["PE"; "AR"] ∧
  region ∈ Object_values REGION_CONFIG ∧
  RegionConfig.adminOnly region = true ∧
  ∃ enabled, getEnabledRegions w = Return enabled ∧
    (VStr (RegionConfig.code region) ∈ enabled ↔
     true = true ∧ RegionConfig.code region ∈ ["PE"; "AR"]).
Proof.
  intros w region.
  assert (getAdminConfig w = admin_config true ["PE"; "AR"]) as Hcfg
    by (vm_compute; reflexivity).
  split_and!; [exact Hcfg | exact AR_in_registry | reflexivity |].
  exact (adminOnly_code_enabled_iff w true ["PE"; "AR"] region Hcfg
           AR_in_registry eq_refl).
Defined.

Lemma default_code_always_enabled_witness :
  let w := browser (admin_json true ["PE"; "AR"]) None None in
  let region := RegionConfig.mk "CL" "Chile" true false in
  getAdminConfig w = admin_config true ["PE"; "AR"] ∧
  region ∈ Object_values REGION_CONFIG ∧
  RegionConfig.adminOnly region = false ∧
  ∃ enabled, getEnabledRegions w = Return enabled ∧
    VStr (RegionConfig.code region) ∈ enabled.
Proof.
  intros w region.
  assert (getAdminConfig w = admin_config true ["PE"; "AR"]) as Hcfg
    by (vm_compute; reflexivity).
  split_and!; [exact Hcfg | exact CL_in_registry | reflexivity |].
  exact (default_code_always_enabled w true ["PE"; "AR"] region Hcfg
           CL_in_registry eq_refl).
Defined.

Lemma enabled_regions_NoDup_witness :
  let w := browser (admin_json true ["AR"; "CL"; "AR"; "PE"; "AR"]) None None in
  getAdminConfig w = admin_config true ["AR"; "CL"; "AR"; "PE"; "AR"] ∧
  ∃ enabled, getEnabledRegions w = Return enabled ∧ NoDup enabled.
Proof.
  intros w.
  assert (getAdminConfig w = admin_config true ["AR"; "CL"; "AR"; "PE"; "AR"])
    as Hcfg by (vm_compute; reflexivity).
  split; [exact Hcfg |].
  exact (enabled_regions_NoDup w true _ Hcfg).
Defined.

Lemma XX_not_in_registry : ¬ in_registry "XX".
Proof. by intros [? [=]]. Qed.

Lemma unregistered_code_enabled_iff_witness :
  let w := browser (admin_json true ["XX"]) None None in
  getAdminConfig w = admin_config true ["XX"] ∧
  ¬ in_registry "XX" ∧
  ∃ enabled, getEnabledRegions w = Return enabled ∧
    (VStr "XX" ∈ enabled ↔ true = true ∧ "XX" ∈ ["XX"]).
Proof.
  intros w.
  assert (getAdminConfig w = admin_config true ["XX"]) as Hcfg
    by (vm_compute; reflexivity).
  split_and!; [exact Hcfg | exact XX_not_in_registry |].
  exact (unregistered_code_enabled_iff w true ["XX"] "XX" Hcfg XX_not_in_registry).
Defined.

(** C1 fails as stated: the admin slot holds
    [{"isAdmin":true,"enabledRegions":["XX"]}], the registry has no [XX], and
    the resolver returns [XX] after [CL]. *)
Lemma unregistered_code_is_returned :
  let w := browser (admin_json true ["XX"]) None None in
  getAdminConfig w = admin_config true ["XX"] ∧
  "XX" ∈ ["XX"] ∧
  ¬ in_registry "XX" ∧
  getEnabledRegions w = Return [VStr "CL"; VStr "XX"] ∧
  VStr "XX" ∈ [VStr "CL"; VStr "XX"].
Proof.
  split_and!; [by vm_compute | by constructor | exact XX_not_in_registry
              | by vm_compute | by repeat constructor].
Qed.

Lemma malformed_admin_json_witness :
  let w := browser "{isAdmin: yes" (Some "true") None in
  getItem ADMIN_KEY w = Some "{isAdmin: yes" ∧
  "{isAdmin: yes" ≠ EmptyString ∧
  (JSON_parse "{isAdmin: yes" = None ∨
   ∃ parsed, JSON_parse "{isAdmin: yes" = Some parsed ∧ is_object parsed = false) ∧
  getAdminConfig w = admin_config false [].
Proof.
  intros w.
  assert (JSON_parse "{isAdmin: yes" = None ∨
          ∃ parsed, JSON_parse "{isAdmin: yes" = Some parsed ∧
                    is_object parsed = false) as Hbad
    by (left; vm_compute; reflexivity).
  split_and!; [reflexivity | discriminate | exact Hbad |].
  exact (malformed_admin_json w "{isAdmin: yes" eq_refl ltac:(discriminate) Hbad).
Defined.

(** The stored text is the JSON [null]: the read of [isAdmin] raises and the
    handler answers. *)
Example null_admin_json :
  getAdminConfig (browser "null" (Some "true") None) = admin_config false [].
Proof. reflexivity. Qed.

(** C7 fails as stated: the admin slot holds the empty string, which is not
    valid JSON, the environment variable is [true], and [getAdminConfig]
    returns [isAdmin = true]. *)
Lemma empty_admin_string_reads_environment :
  let w := browser EmptyString (Some "true") None in
  getItem ADMIN_KEY w = Some EmptyString ∧
  JSON_parse EmptyString = None ∧
  getAdminConfig w = admin_config true [] ∧
  getAdminConfig w ≠ admin_config false [].
Proof. split_and!; [reflexivity | reflexivity | reflexivity | discriminate]. Qed.

Lemma toggle_unauthorized_witness :
  let w := browser (admin_json false ["AR"]) (Some "true") None in
  isAdmin (getAdminConfig w) = VBool false ∧
  toggleRegionForAdmin "AR" true w =
  (Throw (Error "No tienes permisos de administrador"), w).
Proof.
  intros w.
  assert (isAdmin (getAdminConfig w) = VBool false) as Hadmin
    by (vm_compute; reflexivity).
  split; [exact Hadmin |].
  exact (toggle_unauthorized w "AR" true Hadmin).
Defined.

Lemma validate_address_engine_not_loaded_witness :
  let w := fresh None in
  google_maps w = None ∧
  validateAddressRegion w "Santiago, Chile" =
    Return (AddressValidation.mk false None (Some "Google Maps no está cargado")) ∧
  "Google Maps no está cargado" ≠ EmptyString.
Proof.
  intros w. split; [reflexivity |].
  exact (validate_address_engine_not_loaded w "Santiago, Chile" eq_refl).
Defined.

Lemma geocodes_Santiago :
  geocodes_to (fresh (Some geocoder)) "Santiago, Chile"
    {| long_name := "Chile"; short_name := "CL"; types := ["country"; "political"] |}.
Proof. by eexists geocoder, _, _. Qed.

Lemma geocodes_Mendoza :
  geocodes_to (fresh (Some geocoder)) "Mendoza, Argentina"
    {| long_name := "Argentina"; short_name := "AR"; types := ["country"; "political"] |}.
Proof. by eexists geocoder, _, _. Qed.

Lemma route_CL_to_AR_default_witness :
  let w := fresh (Some geocoder) in
  let chile := {| long_name := "Chile"; short_name := "CL";
                  types := ["country"; "political"] |} in
  let argentina := {| long_name := "Argentina"; short_name := "AR";
                      types := ["country"; "political"] |} in
  getAdminConfig w = admin_config false [] ∧
  geocodes_to w "Santiago, Chile" chile ∧
  short_name chile = "CL" ∧
  geocodes_to w "Mendoza, Argentina" argentina ∧
  short_name argentina = "AR" ∧
  validateRouteRegions w "Santiago, Chile" "Mendoza, Argentina" =
  Return (RouteValidation.mk false
    [ "Destino: Las rutas fuera de Chile no están permitidas. Contacta a un administrador para habilitar "
      +:+ string_or (Some (long_name argentina)) "AR" +:+ ".";
      "El destino debe estar en Chile" ]).
Proof.
  intros w chile argentina.
  split_and!; [reflexivity | exact geocodes_Santiago | reflexivity
              | exact geocodes_Mendoza | reflexivity |].
  exact (route_CL_to_AR_default w "Santiago, Chile" "Mendoza, Argentina"
           chile argentina eq_refl geocodes_Santiago eq_refl geocodes_Mendoza eq_refl).
Defined.

(** C2 fails as stated: on a first visit, with Santiago geocoded to [CL] and
    Mendoza to [AR], the route is invalid with two errors, not one. *)
Lemma route_CL_to_AR_two_errors :
  let w := fresh (Some geocoder) in
  getAdminConfig w = admin_config false [] ∧
  getEnabledRegions w = Return [VStr "CL"] ∧
  geocodes_to w "Santiago, Chile"
    {| long_name := "Chile"; short_name := "CL"; types := ["country"; "political"] |} ∧
  geocodes_to w "Mendoza, Argentina"
    {| long_name := "Argentina"; short_name := "AR"; types := ["country"; "political"] |} ∧
  ∃ route,
    validateRouteRegions w "Santiago, Chile" "Mendoza, Argentina" = Return route ∧
    RouteValidation.valid route = false ∧
    RouteValidation.errors route =
      [ "Destino: Las rutas fuera de Chile no están permitidas. Contacta a un administrador para habilitar Argentina.";
        "El destino debe estar en Chile" ] ∧
    length (RouteValidation.errors route) ≠ 1.
Proof.
  split_and!; [reflexivity | reflexivity | exact geocodes_Santiago
              | exact geocodes_Mendoza |].
  eexists. split_and!; [by vm_compute | reflexivity | reflexivity | discriminate].
Qed.

Lemma AR_registered : in_registry "AR".
Proof. by eexists. Qed.

Lemma toggle_on_off_restores_witness :
  let w := browser (admin_json true ["PE"; "PE"; "BO"]) None None in
  getAdminConfig w = admin_config true ["PE"; "PE"; "BO"] ∧
  in_registry "AR" ∧
  ("AR" ∉ ["PE"; "PE"; "BO"]) ∧
  round_trips (admin_config true ["PE"; "BO"; "AR"]) ∧
  round_trips (admin_config true ["PE"; "BO"]) ∧
  ∃ w1 w2,
    toggleRegionForAdmin "AR" true w = (Return (), w1) ∧
    toggleRegionForAdmin "AR" false w1 = (Return (), w2) ∧
    getAdminConfig w2 = admin_config true ["PE"; "BO"] ∧
    (∀ c, VStr c ∈ [VStr "PE"; VStr "BO"] ↔ c ∈ ["PE"; "PE"; "BO"]) ∧
    (NoDup ["PE"; "PE"; "BO"] → getAdminConfig w2 = getAdminConfig w) ∧
    getEnabledRegions w2 = getEnabledRegions w.
Proof.
  intros w.
  assert (getAdminConfig w = admin_config true ["PE"; "PE"; "BO"]) as Hcfg
    by (vm_compute; reflexivity).
  assert ("AR" ∉ ["PE"; "PE"; "BO"]) as Hnew.
  { intros Hin. repeat (apply elem_of_cons in Hin as [[=]|Hin]).
    by apply elem_of_nil in Hin. }
  assert (round_trips (admin_config true ["PE"; "BO"; "AR"])) as Hrt1
    by (split; [discriminate | reflexivity]).
  assert (round_trips (admin_config true ["PE"; "BO"])) as Hrt2
    by (split; [discriminate | reflexivity]).
  split_and!; [exact Hcfg | exact AR_registered | exact Hnew
              | exact Hrt1 | exact Hrt2 |].
  exact (toggle_on_off_restores w ["PE"; "PE"; "BO"] "AR"
           Hcfg AR_registered Hnew Hrt1 Hrt2).
Defined.

(** C3 fails as stated: the admin slot holds
    [{"isAdmin":true,"enabledRegions":["AR"]}]; enabling [AR] and then
    disabling it leaves an empty stored list, and the resolver without
    [AR]. *)
Lemma toggle_on_off_drops_enabled_code :
  let w := browser (admin_json true ["AR"]) None None in
  let w1 := snd (toggleRegionForAdmin "AR" true w) in
  let w2 := snd (toggleRegionForAdmin "AR" false w1) in
  in_registry "AR" ∧
  getAdminConfig w = admin_config true ["AR"] ∧
  fst (toggleRegionForAdmin "AR" true w) = Return () ∧
  fst (toggleRegionForAdmin "AR" false w1) = Return () ∧
  getAdminConfig w2 = admin_config true [] ∧
  enabledRegions (getAdminConfig w2) ≠ enabledRegions (getAdminConfig w) ∧
  getEnabledRegions w = Return [VStr "CL"; VStr "AR"] ∧
  getEnabledRegions w2 = Return [VStr "CL"].
Proof.
  split_and!; [exact AR_registered | by vm_compute | by vm_compute | by vm_compute
              | by vm_compute | by vm_compute | by vm_compute | by vm_compute].
Qed.

(** C8 on the code: the registry does not declare [constructor], yet
    [REGION_CONFIG[regionCode]] finds the member inherited from
    [Object.prototype]; the toggle raises nothing and writes the code into
    the stored configuration. *)
Theorem toggle_accepts_inherited_key :
  let w := browser (admin_json true []) None None in
  let outcome := toggleRegionForAdmin "constructor" true w in
  ¬ in_registry "constructor" ∧
  getAdminConfig w = admin_config true [] ∧
  REGION_CONFIG_get "constructor" = Inherited (Some "Object") ∧
  fst outcome = Return () ∧
  getItem ADMIN_KEY (snd outcome) = Some (admin_json true ["constructor"]) ∧
  getAdminConfig (snd outcome) = admin_config true ["constructor"] ∧
  snd outcome ≠ w.
Proof.
  split_and!; [by intros [? [=]] | by vm_compute | reflexivity | by vm_compute
              | by vm_compute | by vm_compute |].
  intros Heq. apply (f_equal (getItem ADMIN_KEY)) in Heq.
  vm_compute in Heq. discriminate.
Qed.

End Runs.

(** * Further properties of the region module *)

Section RegionProperties.
Context `{Host}.
#[local] Existing Instance VStr_inj.

(** ** The resolver on any stored configuration *)

Lemma add_admin_codes_prefix (codes enabled : list value) :
  ∃ more, add_admin_codes enabled codes = enabled ++ more.
Proof.
  revert enabled. induction codes as [|x codes IH]; intros enabled.
  - exists []. by rewrite app_nil_r.
  - rewrite add_admin_codes_cons. destruct (includes enabled x); [apply IH|].
    destruct (IH (enabled ++ [x])) as [more ->]. exists (x :: more).
    by rewrite <- app_assoc.
Qed.

Lemma add_adminOnly_regions_prefix (codes enabled : list value) :
  ∃ more, add_adminOnly_regions enabled codes = enabled ++ more.
Proof.
  unfold add_adminOnly_regions. revert enabled.
  induction (Object_values REGION_CONFIG) as [|region regions IH]; intros enabled.
  - exists []. by rewrite app_nil_r.
  - simpl.
    destruct (RegionConfig.adminOnly region && includes codes _); [|apply IH].
    destruct (negb (includes enabled _)); [|apply IH].
    destruct (IH (push enabled (VStr (RegionConfig.code region)))) as [more ->].
    exists (VStr (RegionConfig.code region) :: more).
    unfold push. by rewrite <- app_assoc.
Qed.


(** X1: whatever is stored, the list the resolver returns starts with [CL]. *)
Theorem getEnabledRegions_starts_with_CL (w : World) (enabled : list value) :
  getEnabledRegions w = Return enabled →
  ∃ others, enabled = VStr "CL" :: others.
Proof.
  unfold getEnabledRegions.
  destruct (truthy (isAdmin (getAdminConfig w))); [|intros [= <-]; by exists []].
  destruct (enabledRegions (getAdminConfig w)) as [| | | | |codes|]; try done.
  intros [= <-].
  destruct (add_admin_codes_prefix codes default_regions) as [more1 ->].
  destruct (add_adminOnly_regions_prefix codes (default_regions ++ more1))
    as [more2 ->].
  by exists (more1 ++ more2).
Qed.

(** ** The address validator *)

(** What the validator computes once the resolver has returned and the
    geocoder has answered. *)
Lemma validateAddressRegion_loaded
  (w : World) (geocode : string → GeocoderResponse) (enabled : list value)
  (address : string) :
  google_maps w = Some geocode →
  getEnabledRegions w = Return enabled →
  validateAddressRegion w address =
  match status (geocode address), results (geocode address) with
  | OK, Some (first :: _) =>
      match find_country (address_components first) with
      | Some country =>
          if bool_decide (short_name country = EmptyString) then
            Return (AddressValidation.mk false None
                      (Some "No se pudo determinar el país de la dirección"))
          else if includes enabled (VStr (short_name country)) then
            Return (AddressValidation.mk true (Some (short_name country)) None)
          else
            Return (AddressValidation.mk false (Some (short_name country))
              (Some ("Las rutas fuera de " +:+ allowed_names enabled
                     +:+ " no están permitidas. Contacta a un administrador para habilitar "
                     +:+ string_or (Some (long_name country)) (short_name country)
                     +:+ ".")))
      | None =>
          Return (AddressValidation.mk false None
                    (Some "No se pudo determinar el país de la dirección"))
      end
  | _, _ =>
      Return (AddressValidation.mk false None
                (Some "No se pudo validar la dirección"))
  end.
Proof.
  intros Hmaps Hen. unfold validateAddressRegion. rewrite Hmaps, Hen. simpl.
  destruct (status (geocode address)), (results (geocode address)) as [[|first ?]|];
    try done.
  by destruct (find_country (address_components first)).
Qed.


(** X3: an address the geocoder does not resolve (a status other than [OK], or
    no candidate) is invalid, with no country code and the generic message. *)
Theorem validateAddressRegion_unresolvable
  (w : World) (geocode : string → GeocoderResponse) (enabled : list value)
  (address : string) :
  google_maps w = Some geocode →
  getEnabledRegions w = Return enabled →
  status (geocode address) ≠ OK ∨
  results (geocode address) = None ∨
  results (geocode address) = Some [] →
  validateAddressRegion w address =
  Return (AddressValidation.mk false None (Some "No se pudo validar la dirección")).
Proof.
  intros Hmaps Hen Hbad.
  rewrite (validateAddressRegion_loaded w geocode enabled address Hmaps Hen).
  destruct (status (geocode address)), (results (geocode address)) as [[|first ?]|];
    try done.
  by destruct Hbad as [?|[?|?]].
Qed.

(** X4: a first candidate without a country component, or whose country has an
    empty short name, is invalid with no country code: the country could not
    be determined. *)
Theorem validateAddressRegion_country_undetermined
  (w : World) (geocode : string → GeocoderResponse) (enabled : list value)
  (address : string) (first : GeocoderResult) (others : list GeocoderResult) :
  google_maps w = Some geocode →
  getEnabledRegions w = Return enabled →
  status (geocode address) = OK →
  results (geocode address) = Some (first :: others) →
  short_name <$> find_country (address_components first) = None ∨
  short_name <$> find_country (address_components first) = Some EmptyString →
  validateAddressRegion w address =
  Return (AddressValidation.mk false None
            (Some "No se pudo determinar el país de la dirección")).
Proof.
  intros Hmaps Hen Hstatus Hresults Hcountry.
  rewrite (validateAddressRegion_loaded w geocode enabled address Hmaps Hen).
  rewrite Hstatus, Hresults.
  destruct (find_country (address_components first)) as [country|]; [|done].
  destruct Hcountry as [[=]|[= ->]]. done.
Qed.

Lemma append_not_empty (prefix rest : string) :
  prefix ≠ EmptyString → prefix +:+ rest ≠ EmptyString.
Proof. by destruct prefix. Qed.

(** X5: what a result of the validator guarantees: a valid one carries the
    country code, which the resolver lists, and no error; an invalid one
    always carries an error message that is not empty. *)
Theorem validateAddressRegion_result
  (w : World) (address : string) (validation : AddressValidation.t) :
  validateAddressRegion w address = Return validation →
  if AddressValidation.valid validation then
    AddressValidation.error validation = None ∧
    ∃ countryCode enabled,
      AddressValidation.countryCode validation = Some countryCode ∧
      countryCode ≠ EmptyString ∧
      getEnabledRegions w = Return enabled ∧
      VStr countryCode ∈ enabled
  else
    ∃ message,
      AddressValidation.error validation = Some message ∧ message ≠ EmptyString.
Proof.
  destruct (google_maps w) as [geocode|] eqn:Hmaps.
  2: { unfold validateAddressRegion. rewrite Hmaps. intros [= <-]. by eexists. }
  destruct (getEnabledRegions w) as [enabled|e] eqn:Hen.
  2: { unfold validateAddressRegion. by rewrite Hmaps, Hen. }
  rewrite (validateAddressRegion_loaded w geocode enabled address Hmaps Hen).
  destruct (status (geocode address)), (results (geocode address)) as [[|first ?]|];
    try (intros [= <-]; by eexists).
  destruct (find_country (address_components first)) as [country|];
    [|intros [= <-]; by eexists].
  case_bool_decide as Hcode; [intros [= <-]; by eexists|].
  destruct (includes enabled _) eqn:Hin; intros [= <-]; simpl.
  - split; [done|]. eexists _, _. split_and!; [done..|]. by apply includes_code.
  - eexists. split; [done|]. by apply append_not_empty.
Qed.

(** X6: without admin rights the stored [enabledRegions] plays no part: an
    address whose country was determined is valid exactly when it is in
    Chile. *)
Theorem validateAddressRegion_non_admin
  (w : World) (address : string) (country : AddressComponent) :
  truthy (isAdmin (getAdminConfig w)) = false →
  geocodes_to w address country →
  short_name country ≠ EmptyString →
  ∃ validation,
    validateAddressRegion w address = Return validation ∧
    AddressValidation.countryCode validation = Some (short_name country) ∧
    (AddressValidation.valid validation = true ↔ short_name country = "CL").
Proof.
  intros Hadmin Hgeo Hne.
  assert (getEnabledRegions w = Return [VStr "CL"]) as Hen.
  { unfold getEnabledRegions. by rewrite Hadmin. }
  rewrite (validateAddressRegion_geocoded w address country _ Hgeo Hne Hen).
  destruct (includes [VStr "CL"] (VStr (short_name country))) eqn:Hin;
    eexists; (split; [done|]; split; [done|]); simpl.
  - apply includes_code, list_elem_of_singleton in Hin as [= ->]. done.
  - apply includes_code_false in Hin. split; [done|].
    intros Hcl. destruct Hin. rewrite Hcl. by constructor.
Qed.

(** ** The route validator *)



(** X8: while the mapping engine is not loaded every route is invalid, with one
    error for the origin and one for the destination. *)
Theorem validateRouteRegions_engine_not_loaded
  (w : World) (origin destination : string) :
  google_maps w = None →
  validateRouteRegions w origin destination =
  Return (RouteValidation.mk false
            [ "Origen: Google Maps no está cargado";
              "Destino: Google Maps no está cargado" ]).
Proof.
  intros Hmaps. unfold validateRouteRegions, validateAddressRegion.
  by rewrite Hmaps.
Qed.


(** ** Reading the admin slot *)

(** X10: a value stored in the admin slot takes precedence over the environment:
    two worlds that hold the same non-empty text there read the same
    configuration, whatever [VITE_ADMIN_ENABLED] says in each. *)
Theorem getAdminConfig_stored_overrides_environment
  (w1 w2 : World) (adminFromStorage : string) :
  getItem ADMIN_KEY w1 = Some adminFromStorage →
  getItem ADMIN_KEY w2 = Some adminFromStorage →
  adminFromStorage ≠ EmptyString →
  getAdminConfig w1 = getAdminConfig w2.
Proof.
  intros H1 H2 Hne. unfold getAdminConfig. rewrite H1, H2. simpl.
  by rewrite bool_decide_eq_false_2.
Qed.

(** X11: a configuration of the declared type that was stored through
    [JSON.stringify] is read back as it was, [isAdmin] false or empty list
    included. *)
Theorem getAdminConfig_reads_back (w : World) (admin : bool) (codes : list string) :
  round_trips (admin_config admin codes) →
  getItem ADMIN_KEY w =
    Some (JSON_stringify (AdminConfig_object (admin_config admin codes))) →
  getAdminConfig w = admin_config admin codes.
Proof.
  intros [Hne Hparse] Hget.
  rewrite (getAdminConfig_parsed w _ _ Hget Hne Hparse).
  by destruct admin.
Qed.

(** ** The toggle on a configuration of the declared type *)

Lemma setItem_setItem (key a b : string) (w : World) :
  setItem key b (setItem key a w) = setItem key b w.
Proof. unfold setItem. simpl. f_equal. apply insert_insert_eq. Qed.

Lemma add_admin_codes_strings (l acc : list string) :
  ∃ k, add_admin_codes (VStr <$> acc) (VStr <$> l) = VStr <$> k.
Proof.
  revert acc. induction l as [|c l IH]; intros acc; [by exists acc|].
  rewrite fmap_cons, add_admin_codes_cons.
  destruct (includes _ (VStr c)); [apply IH|].
  change [VStr c] with (VStr <$> [c]). rewrite <- fmap_app. apply IH.
Qed.

(** The list the first branch of the toggle stores: the codes, once each,
    with the new one. *)
Lemma Set_spread_snoc_strings (l : list string) (c : string) :
  ∃ k, Set_spread ((VStr <$> l) ++ [VStr c]) = VStr <$> k ∧
       NoDup k ∧ ∀ x, x ∈ k ↔ x = c ∨ x ∈ l.
Proof.
  change [VStr c] with (VStr <$> [c]). rewrite <- fmap_app.
  destruct (add_admin_codes_strings (l ++ [c]) []) as [k Hk].
  exists k. rewrite Set_spread_add_admin_codes. split; [done|]. split.
  - apply (NoDup_fmap_1 VStr). rewrite <- Hk.
    apply NoDup_add_admin_codes, NoDup_nil_2.
  - intros x. rewrite <- (list_elem_of_fmap_inj VStr), <- Hk.
    change (@nil value) with (VStr <$> @nil string).
    rewrite elem_of_add_admin_codes, !list_elem_of_fmap_inj by apply _.
    rewrite elem_of_nil, elem_of_app, list_elem_of_singleton. tauto.
Qed.

(** The list the second branch stores: the codes in their order, without
    any occurrence of the one removed. *)
Lemma filter_out_strings (l : list string) (c : string) :
  List.filter (λ code, negb (SameValueZero code (VStr c))) (VStr <$> l) =
  VStr <$> filter (λ x, x ≠ c) l.
Proof.
  induction l as [|x l IH]; [done|].
  rewrite fmap_cons. simpl. rewrite IH.
  destruct (decide (x = c)) as [->|Hne].
  - rewrite bool_decide_eq_true_2 by done. simpl.
    by rewrite filter_cons_False by (by intros []).
  - rewrite bool_decide_eq_false_2 by done. simpl.
    by rewrite filter_cons_True.
Qed.

Lemma toggle_typed (w : World) (codes : list string) (regionCode : string)
    (enabled : bool) :
  getAdminConfig w = admin_config true codes →
  in_registry regionCode →
  toggleRegionForAdmin regionCode enabled w =
  (Return (),
   setItem ADMIN_KEY
     (JSON_stringify
        (AdminConfig_object
           {| isAdmin := VBool true;
              enabledRegions := VArr (updated_regions codes regionCode enabled) |}))
     w).
Proof.
  intros Hcfg Hreg. destruct (in_registry_get regionCode Hreg) as [region Hget].
  unfold toggleRegionForAdmin. rewrite Hcfg, Hget. by destruct enabled.
Qed.

(** X12: enabling a registry code as an admin stores the codes that were there
    plus that one, each once, keeps [isAdmin], and makes the resolver list
    the code. *)
Theorem toggle_enable (w : World) (codes : list string) (regionCode : string) :
  getAdminConfig w = admin_config true codes →
  in_registry regionCode →
  round_trips {| isAdmin := VBool true;
                 enabledRegions := VArr (updated_regions codes regionCode true) |} →
  ∃ w' codes',
    toggleRegionForAdmin regionCode true w = (Return (), w') ∧
    getAdminConfig w' = admin_config true codes' ∧
    NoDup codes' ∧
    (∀ c, c ∈ codes' ↔ c = regionCode ∨ c ∈ codes) ∧
    ∃ enabled, getEnabledRegions w' = Return enabled ∧ VStr regionCode ∈ enabled.
Proof.
  intros Hcfg Hreg Hrt.
  destruct (Set_spread_snoc_strings codes regionCode) as (k & Hk & Hnd & Hin).
  eexists _, k. split; [by apply toggle_typed|].
  assert (getAdminConfig
            (setItem ADMIN_KEY
               (JSON_stringify
                  (AdminConfig_object
                     {| isAdmin := VBool true;
                        enabledRegions := VArr (updated_regions codes regionCode true) |}))
               w) = admin_config true k) as Hcfg'.
  { rewrite (getAdminConfig_setItem w _ Hrt). unfold updated_regions.
    by rewrite Hk. }
  split_and!; [done..|].
  rewrite (getEnabledRegions_typed _ true k Hcfg'). eexists. split; [done|].
  apply elem_of_add_admin_codes. right. apply list_elem_of_fmap_2, Hin. by left.
Qed.

(** X13: disabling a registry code as an admin stores the other codes, in their
    order, and keeps [isAdmin]; afterwards the resolver lists the code only
    if it is the default region [CL], which cannot be switched off. *)
Theorem toggle_disable (w : World) (codes : list string) (regionCode : string) :
  getAdminConfig w = admin_config true codes →
  in_registry regionCode →
  round_trips {| isAdmin := VBool true;
                 enabledRegions := VArr (updated_regions codes regionCode false) |} →
  ∃ w',
    toggleRegionForAdmin regionCode false w = (Return (), w') ∧
    getAdminConfig w' = admin_config true (filter (λ c, c ≠ regionCode) codes) ∧
    ∃ enabled, getEnabledRegions w' = Return enabled ∧
               (VStr regionCode ∈ enabled ↔ regionCode = "CL").
Proof.
  intros Hcfg Hreg Hrt.
  eexists. split; [by apply toggle_typed|].
  assert (getAdminConfig
            (setItem ADMIN_KEY
               (JSON_stringify
                  (AdminConfig_object
                     {| isAdmin := VBool true;
                        enabledRegions := VArr (updated_regions codes regionCode false) |}))
               w) = admin_config true (filter (λ c, c ≠ regionCode) codes)) as Hcfg'.
  { rewrite (getAdminConfig_setItem w _ Hrt). unfold updated_regions.
    by rewrite filter_out_strings. }
  split; [done|].
  rewrite (getEnabledRegions_typed _ true _ Hcfg'). eexists. split; [done|].
  rewrite elem_of_add_admin_codes, list_elem_of_singleton,
    list_elem_of_fmap_inj, list_elem_of_filter by apply _.
  split; [intros [[= ->]|[? _]]; done | intros ->; by left].
Qed.

(** X14: repeating a toggle changes nothing: the second call, in the same
    direction, stores what the first one stored. *)
Theorem toggle_twice (w : World) (codes : list string) (regionCode : string)
    (enabled : bool) :
  getAdminConfig w = admin_config true codes →
  in_registry regionCode →
  round_trips {| isAdmin := VBool true;
                 enabledRegions := VArr (updated_regions codes regionCode enabled) |} →
  ∃ w',
    toggleRegionForAdmin regionCode enabled w = (Return (), w') ∧
    toggleRegionForAdmin regionCode enabled w' = (Return (), w').
Proof.
  intros Hcfg Hreg Hrt. eexists. split; [by apply toggle_typed|].
  assert (∃ k, updated_regions codes regionCode enabled = VStr <$> k ∧
               updated_regions k regionCode enabled = VStr <$> k)
    as (k & Hk & Hk').
  { unfold updated_regions. destruct enabled.
    - destruct (Set_spread_snoc_strings codes regionCode) as (k & Hk & Hnd & Hin).
      exists k. split; [done|].
      rewrite Set_spread_add_admin_codes, add_admin_codes_snoc. simpl.
      rewrite <- Set_spread_add_admin_codes, Set_spread_NoDup by done.
      assert (includes (VStr <$> k) (VStr regionCode) = true) as ->; [|done].
      apply includes_code, list_elem_of_fmap_2, Hin. by left.
    - exists (filter (λ c, c ≠ regionCode) codes).
      rewrite !filter_out_strings. split; [done|]. f_equal.
      rewrite list_filter_filter. apply list_filter_iff. tauto. }
  assert (getAdminConfig
            (setItem ADMIN_KEY
               (JSON_stringify
                  (AdminConfig_object
                     {| isAdmin := VBool true;
                        enabledRegions := VArr (updated_regions codes regionCode enabled) |}))
               w) = admin_config true k) as Hcfg'.
  { rewrite (getAdminConfig_setItem w _ Hrt). by rewrite Hk. }
  rewrite (toggle_typed _ k regionCode enabled Hcfg' Hreg).
  by rewrite setItem_setItem, Hk', Hk.
Qed.

(** X15: whatever is stored, the toggle leaves the environment, the mapping
    engine and every other key of the storage as they were, and a toggle
    that raised has written nothing at all. *)
Theorem toggle_frame (w : World) (regionCode : string) (enabled : bool) :
  let outcome := toggleRegionForAdmin regionCode enabled w in
  VITE_ADMIN_ENABLED (snd outcome) = VITE_ADMIN_ENABLED w ∧
  google_maps (snd outcome) = google_maps w ∧
  (∀ key, key ≠ ADMIN_KEY → getItem key (snd outcome) = getItem key w) ∧
  (∀ e, fst outcome = Throw e → snd outcome = w).
Proof.
  unfold toggleRegionForAdmin.
  destruct (negb (truthy (isAdmin (getAdminConfig w)))); [done|].
  destruct (REGION_CONFIG_get regionCode); [| |done].
  all: destruct enabled; simpl.
  all: repeat match goal with
         | |- context [spread ?x] => destruct (spread x); simpl
         | |- context [filter_out ?x ?c] => destruct (filter_out x c); simpl
         end.
  all: split_and!; try done.
  all: intros key Hkey; unfold getItem, setItem; simpl;
       by rewrite lookup_insert_ne.
Qed.

(** ** The region list of the admin panel *)

Lemma getRegionInfo_typed (w : World) (admin : bool) (codes : list string) :
  getAdminConfig w = admin_config admin codes →
  getRegionInfo w =
  Return ((λ region,
             (region,
              bool_decide (RegionConfig.code region = "CL" ∨
                           admin = true ∧ RegionConfig.code region ∈ codes)))
          <$> Object_values REGION_CONFIG).
Proof.
  intros Hcfg. unfold getRegionInfo.
  rewrite (getEnabledRegions_typed w admin codes Hcfg).
  unfold mbind, result_bind. f_equal.
  apply list_fmap_ext. intros _ region _. f_equal.
  destruct admin.
  - destruct (includes _ _) eqn:Hin; symmetry.
    + apply bool_decide_eq_true.
      apply includes_code, elem_of_add_admin_codes in Hin as [Hin|Hin].
      * apply list_elem_of_singleton in Hin as [= ->]. by left.
      * apply list_elem_of_fmap_inj in Hin; [|apply _]. by right.
    + apply bool_decide_eq_false. apply includes_code_false in Hin.
      rewrite elem_of_add_admin_codes, list_elem_of_singleton,
        list_elem_of_fmap_inj in Hin by apply _.
      intros [Hcl|[_ ?]]; apply Hin; [left; by rewrite Hcl | by right].
  - destruct (includes _ _) eqn:Hin; symmetry.
    + apply bool_decide_eq_true.
      apply includes_code, list_elem_of_singleton in Hin as [= ->]. by left.
    + apply bool_decide_eq_false. apply includes_code_false in Hin.
      rewrite list_elem_of_singleton in Hin.
      intros [Hcl|[[=] _]]. apply Hin. by rewrite Hcl.
Qed.

(** X16: the panel lists the registry regions in their order, each with its
    effective status: Chile always enabled, any other region exactly when an
    admin has stored its code. *)
Theorem getRegionInfo_status (w : World) (admin : bool) (codes : list string) :
  getAdminConfig w = admin_config admin codes →
  ∃ info,
    getRegionInfo w = Return info ∧
    info.*1 = Object_values REGION_CONFIG ∧
    ∀ region isEnabled,
      (region, isEnabled) ∈ info →
      (isEnabled = true ↔
       RegionConfig.code region = "CL" ∨
       admin = true ∧ RegionConfig.code region ∈ codes).
Proof.
  intros Hcfg. rewrite (getRegionInfo_typed w admin codes Hcfg).
  eexists. split; [done|]. split.
  - rewrite <- list_fmap_compose. apply list_fmap_id.
  - intros region isEnabled (r & [= -> ->] & _)%list_elem_of_fmap.
    apply bool_decide_eq_true.
Qed.

Lemma updated_regions_strings (codes : list string) (regionCode : string)
    (enabled : bool) :
  ∃ k, updated_regions codes regionCode enabled = VStr <$> k ∧
       ∀ x, x ∈ k ↔
            if enabled then x = regionCode ∨ x ∈ codes
            else x ≠ regionCode ∧ x ∈ codes.
Proof.
  unfold updated_regions. destruct enabled.
  - destruct (Set_spread_snoc_strings codes regionCode) as (k & Hk & _ & Hin).
    by exists k.
  - exists (filter (λ c, c ≠ regionCode) codes). split.
    + apply filter_out_strings.
    + intros x. simpl. apply (list_elem_of_filter (λ c, c ≠ regionCode)).
Qed.

Lemma registry_code_inj (r1 r2 : RegionConfig.t) :
  r1 ∈ Object_values REGION_CONFIG →
  r2 ∈ Object_values REGION_CONFIG →
  RegionConfig.code r1 = RegionConfig.code r2 →
  r1 = r2.
Proof.
  unfold Object_values, REGION_CONFIG. simpl. intros H1 H2.
  repeat (apply elem_of_cons in H1 as [->|H1]);
    try (by apply elem_of_nil in H1);
    repeat (apply elem_of_cons in H2 as [->|H2]);
    try (by apply elem_of_nil in H2); done.
Qed.

(** X17: the button of the panel flips the region it belongs to and no other:
    when the list on screen is the one [getRegionInfo] returned, clicking an
    admin-only region leaves it with the opposite status and every other
    entry as it was. *)
Theorem handleToggleRegion_flips
  (w : World) (codes : list string) (regions : list (RegionConfig.t * bool))
  (region : RegionConfig.t) (currentEnabled : bool) :
  getAdminConfig w = admin_config true codes →
  getRegionInfo w = Return regions →
  (region, currentEnabled) ∈ regions →
  RegionConfig.adminOnly region = true →
  round_trips
    {| isAdmin := VBool true;
       enabledRegions :=
         VArr (updated_regions codes (RegionConfig.code region)
                               (negb currentEnabled)) |} →
  ∃ w' regions',
    handleToggleRegion (RegionConfig.code region) currentEnabled w regions =
      (w', regions') ∧
    getRegionInfo w' = Return regions' ∧
    (region, negb currentEnabled) ∈ regions' ∧
    ∀ other isEnabled,
      other ≠ region →
      ((other, isEnabled) ∈ regions' ↔ (other, isEnabled) ∈ regions).
Proof.
  intros Hcfg Hinfo Hin Hadm Hrt.
  assert (regions =
          (λ region,
             (region,
              bool_decide (RegionConfig.code region = "CL" ∨
                           true = true ∧ RegionConfig.code region ∈ codes)))
          <$> Object_values REGION_CONFIG) as ->.
  { rewrite (getRegionInfo_typed w true codes Hcfg) in Hinfo. congruence. }
  clear Hinfo.
  apply list_elem_of_fmap in Hin as (r & [= <- Hcur] & Hreg).
  assert (RegionConfig.code region ≠ "CL") as Hne.
  { intros Hcl. apply registry_regions in Hreg as [_ Hiff].
    apply Hiff in Hcl. congruence. }
  assert (in_registry (RegionConfig.code region)) as Hinreg.
  { apply in_registry_iff. by apply registry_regions. }
  destruct (updated_regions_strings codes (RegionConfig.code region)
              (negb currentEnabled)) as (k & Hk & Hmem).
  pose proof (toggle_typed w codes _ (negb currentEnabled) Hcfg Hinreg) as Htoggle.
  assert (getAdminConfig
            (setItem ADMIN_KEY
               (JSON_stringify
                  (AdminConfig_object
                     {| isAdmin := VBool true;
                        enabledRegions :=
                          VArr (updated_regions codes (RegionConfig.code region)
                                                (negb currentEnabled)) |}))
               w) = admin_config true k) as Hcfg'.
  { rewrite (getAdminConfig_setItem w _ Hrt). by rewrite Hk. }
  pose proof (getRegionInfo_typed _ true k Hcfg') as Hinfo'.
  unfold handleToggleRegion. rewrite Htoggle, Hinfo'.
  eexists _, _. split_and!; [done | done | |].
  - apply list_elem_of_fmap. exists region. split; [|done]. f_equal.
    specialize (Hmem (RegionConfig.code region)).
    destruct currentEnabled; simpl in Hmem |- *; symmetry.
    + apply bool_decide_eq_false. rewrite Hmem. by intros [?|[_ [? _]]].
    + apply bool_decide_eq_true. right. split; [done|]. apply Hmem. by left.
  - intros other isEnabled Hother.
    rewrite !list_elem_of_fmap. split.
    all: intros (r & [= -> ->] & Hr); exists r; split; [|done]; f_equal.
    all: apply bool_decide_ext; rewrite Hmem.
    all: assert (RegionConfig.code r ≠ RegionConfig.code region) as Hcode
           by (intros Heq; by apply Hother, registry_code_inj).
    all: destruct (negb currentEnabled); tauto.
Qed.

End RegionProperties.

(** * The maps logger *)

Section LoggerProperties.

Context `{StringHost}.

Lemma addLog_logs (env : MapsLogger.Env) (entry : MapsLogger.MapsLogEntry)
  (l : MapsLogger.t) :
  MapsLogger.enabled l = true →
  length (MapsLogger.logs l) ≤ MapsLogger.maxLogs l →
  let l' := (MapsLogger.addLog env entry l).2 in
  MapsLogger.logs l' =
    drop (length (MapsLogger.logs l ++ [entry]) - MapsLogger.maxLogs l)
         (MapsLogger.logs l ++ [entry]) ∧
  MapsLogger.maxLogs l' = MapsLogger.maxLogs l ∧
  MapsLogger.enabled l' = true ∧
  length (MapsLogger.logs l') ≤ MapsLogger.maxLogs l'.
Proof.
  intros Hen Hlen. unfold MapsLogger.addLog, push. rewrite Hen. simpl.
  assert (length (MapsLogger.logs l ++ [entry]) = S (length (MapsLogger.logs l)))
    as Hl by (rewrite length_app; simpl; lia).
  case_bool_decide as Hfull.
  - assert (length (MapsLogger.logs l ++ [entry]) - MapsLogger.maxLogs l = 1)
      as -> by lia.
    split_and!; [by destruct (MapsLogger.logs l ++ [entry]) | done | done |].
    destruct (MapsLogger.logs l ++ [entry]); simpl in *; lia.
  - assert (length (MapsLogger.logs l ++ [entry]) - MapsLogger.maxLogs l = 0)
      as -> by lia.
    split_and!; [done | done | done | lia].
Qed.

Lemma addLogs_logs (env : MapsLogger.Env) (entries : list MapsLogger.MapsLogEntry) :
  ∀ l : MapsLogger.t,
  MapsLogger.enabled l = true →
  length (MapsLogger.logs l) ≤ MapsLogger.maxLogs l →
  MapsLogger.logs
    (foldl (λ l entry, (MapsLogger.addLog env entry l).2) l entries) =
  drop (length (MapsLogger.logs l ++ entries) - MapsLogger.maxLogs l)
       (MapsLogger.logs l ++ entries).
Proof.
  induction entries as [|entry entries IH]; intros l Hen Hlen.
  - simpl. rewrite app_nil_r.
    by assert (length (MapsLogger.logs l) - MapsLogger.maxLogs l = 0) as -> by lia.
  - simpl foldl.
    destruct (addLog_logs env entry l Hen Hlen) as (Hlogs & Hmax & Hen' & Hlen').
    rewrite (IH _ Hen' Hlen'), Hlogs, Hmax.
    set (X := MapsLogger.logs l ++ [entry]).
    assert (length X = S (length (MapsLogger.logs l))) as HX
      by (unfold X; rewrite length_app; simpl; lia).
    replace (MapsLogger.logs l ++ entry :: entries) with (X ++ entries)
      by (unfold X; by rewrite <- app_assoc).
    rewrite <- (drop_app_le X entries) by lia.
    rewrite drop_drop. f_equal.
    rewrite !length_drop, !length_app. lia.
Qed.

Lemma info_console (env : MapsLogger.Env) (now action : string) (data : value) :
  MapsLogger.console_output env (MapsLogger.mkEntry now MapsLogger.info action data) =
  Return (if MapsLogger.DEV env
          then [MapsLogger.console_log ("[MapsLogger] " +:+ "INFO" +:+ ": " +:+ action) data]
          else []).
Proof. unfold MapsLogger.console_output. by destruct (MapsLogger.DEV env). Qed.

(** X18: the buffer holds the most recent hundred entries, oldest first: after
    any number of entries are added to a new logger that is enabled, the
    logs are the entries without all but the last hundred. *)
Theorem logger_keeps_latest_entries
  (env : MapsLogger.Env) (entries : list MapsLogger.MapsLogEntry) :
  MapsLogger.DEV env = true ∨ MapsLogger.VITE_ENABLE_MAPS_LOGGER env = Some "true" →
  MapsLogger.getLogs
    (foldl (λ l entry, (MapsLogger.addLog env entry l).2) (MapsLogger.new env) entries) =
  drop (length entries - 100) entries.
Proof.
  intros Hon. unfold MapsLogger.getLogs.
  rewrite addLogs_logs; [done| |simpl; lia].
  unfold MapsLogger.new. simpl.
  destruct Hon as [->| ->]; [done|]. by rewrite orb_true_r.
Qed.

(** X19: in a development build a refused route is written to the console with
    [console.error] unless the address of its origin or of its destination
    trims to fewer than five characters; the entry is stored either way. *)
Theorem route_validation_error_console
  (env : MapsLogger.Env) (now : string) (data origin destination : value)
  (shortOrigin shortDestination : bool) (l : MapsLogger.t) :
  MapsLogger.DEV env = true →
  MapsLogger.enabled l = true →
  length (MapsLogger.logs l) < MapsLogger.maxLogs l →
  get_field data "origin" = Return origin →
  get_field data "destination" = Return destination →
  trims_short (optional_field origin "address") = Return shortOrigin →
  trims_short (optional_field destination "address") = Return shortDestination →
  let entry := MapsLogger.mkEntry now MapsLogger.error "route_validation_failed" data in
  MapsLogger.addLog env entry l =
  (Return (if shortOrigin || shortDestination then []
           else [MapsLogger.console_error
                   "[MapsLogger] ERROR: route_validation_failed" data]),
   MapsLogger.mk (MapsLogger.logs l ++ [entry]) (MapsLogger.maxLogs l) true).
Proof.
  intros Hdev Hen Hlen Ho Hd Hso Hsd entry.
  unfold MapsLogger.addLog, MapsLogger.console_output, push.
  rewrite Hen, Hdev. simpl. rewrite Ho. simpl. rewrite Hso. simpl.
  rewrite bool_decide_eq_false_2 by (rewrite length_app; simpl; lia).
  f_equal.
  destruct shortOrigin; simpl; [done|].
  rewrite Hd. simpl. rewrite Hsd. simpl. by destruct shortDestination.
Qed.

End LoggerProperties.

(** * The notification manager *)

Section NotificationProperties.

Context `{Host} `{StringHost}.

Lemma string_append_cons (a : ascii) (s q : string) :
  String a s +:+ q = String a (s +:+ q).
Proof. reflexivity. Qed.

Lemma starts_with_app (needle s q : string) :
  starts_with needle s = true → starts_with needle (s +:+ q) = true.
Proof.
  revert s. induction needle as [|a needle IH]; intros s; [done|].
  destruct s as [|b s]; [done|]. rewrite string_append_cons. simpl.
  intros [? ?]%andb_true_iff. apply andb_true_iff. split; [done|]. by apply IH.
Qed.

Lemma starts_with_refl (needle : string) : starts_with needle needle = true.
Proof.
  induction needle as [|a needle IH]; [done|]. simpl.
  by rewrite bool_decide_eq_true_2.
Qed.

Lemma string_includes_app_l (needle s q : string) :
  string_includes needle s = true → string_includes needle (s +:+ q) = true.
Proof.
  induction s as [|a s IH].
  - simpl. rewrite orb_false_r. destruct needle; [|done]. by destruct q.
  - rewrite string_append_cons. simpl.
    intros [Hs|Hi]%orb_true_iff; apply orb_true_iff.
    + left. by apply (starts_with_app needle (String a s) q).
    + right. by apply IH.
Qed.

Lemma string_includes_app_r (needle p s : string) :
  string_includes needle s = true → string_includes needle (p +:+ s) = true.
Proof.
  intros Hs. induction p as [|a p IH]; [done|].
  rewrite string_append_cons. simpl. rewrite IH. apply orb_true_r.
Qed.

Lemma string_includes_concat (needle sep s : string) (xs : list string) :
  s ∈ xs →
  string_includes needle s = true →
  string_includes needle (String.concat sep xs) = true.
Proof.
  intros Hin Hs. induction xs as [|x xs IH]; [by apply elem_of_nil in Hin|].
  apply elem_of_cons in Hin as [<-|Hin].
  - destruct xs; [done|]. by apply string_includes_app_l.
  - destruct xs as [|y xs]; [by apply elem_of_nil in Hin|].
    change (String.concat sep (x :: y :: xs))
      with (x +:+ sep +:+ String.concat sep (y :: xs)).
    apply string_includes_app_r, string_includes_app_r. by apply IH.
Qed.

Lemma add_unfold (env : MapsLogger.Env) (fresh now logged_at : string)
  (type : Notifications.NotificationType) (message : string)
  (m : Notifications.t) (logger : MapsLogger.t) :
  let m' := Notifications.mk
              (Notifications.notifications m
               ++ [Notifications.mkNotification fresh type message now])
              (Notifications.listeners m) in
  let data := VObj [("type", VStr (Notifications.type_text type));
                    ("message", VStr message);
                    ("timestamp", VStr now)] in
  Notifications.add env fresh now logged_at type message m logger =
  (Return
     ((Notifications.Maps_console <$>
         (if MapsLogger.enabled logger && MapsLogger.DEV env
          then [MapsLogger.console_log
                  ("[MapsLogger] " +:+ "INFO" +:+ ": " +:+ "notification") data]
          else []))
      ++ (if MapsLogger.DEV env && bool_decide (type = Notifications.error) then
            if negb (string_includes "No se pudo validar" message
                     || string_includes "No se pudo determinar" message)
            then [Notifications.Console_error ("[ERROR] " +:+ message)]
            else []
          else [])
      ++ (if bool_decide (type ≠ Notifications.error)
          then [Notifications.Timeout_set 5000 fresh] else [])
      ++ Notifications.notify m'),
   m',
   (MapsLogger.logInfo env logged_at "notification" data logger).2).
Proof.
  intros m' data. unfold Notifications.add, MapsLogger.logInfo, MapsLogger.addLog.
  fold data. destruct (MapsLogger.enabled logger); simpl; [|done].
  rewrite info_console. by destruct (MapsLogger.DEV env).
Qed.

(** X20: [add] always returns: the notification is appended to the list, and every
    listener is called once, in the order of subscription, with the new
    list. *)
Theorem add_appends_and_notifies
  (env : MapsLogger.Env) (fresh now logged_at : string)
  (type : Notifications.NotificationType) (message : string)
  (m : Notifications.t) (logger : MapsLogger.t) :
  let notifications' :=
    Notifications.notifications m
    ++ [Notifications.mkNotification fresh type message now] in
  ∃ effects logger',
    Notifications.add env fresh now logged_at type message m logger =
    (Return effects,
     Notifications.mk notifications' (Notifications.listeners m), logger') ∧
    List.filter (λ e, match e with
                      | Notifications.Listener_called _ _ => true
                      | _ => false
                      end) effects =
    (λ listener, Notifications.Listener_called listener notifications')
      <$> Notifications.listeners m.
Proof.
  intros notifications'. rewrite add_unfold. fold notifications'.
  eexists _, _. split; [done|].
  rewrite !List.filter_app.
  assert (∀ lines, List.filter
            (λ e, match e with
                  | Notifications.Listener_called _ _ => true
                  | _ => false
                  end) (Notifications.Maps_console <$> lines) = []) as ->
    by (intros lines; by induction lines).
  unfold Notifications.notify. simpl.
  assert (∀ (ls : list Notifications.Listener) snapshot,
            List.filter
              (λ e, match e with
                    | Notifications.Listener_called _ _ => true
                    | _ => false
                    end)
              ((λ listener, Notifications.Listener_called listener snapshot) <$> ls)
            = (λ listener, Notifications.Listener_called listener snapshot) <$> ls)
    as -> by (intros ls snapshot; induction ls; simpl; by f_equal).
  by repeat (case_match; simpl).
Qed.

(** X21: a removal is scheduled for every notification that is not an error,
    after 5000 ms and for its own id, and no other timer is set; an error has
    no timer. *)
Theorem removal_timer_iff
  (env : MapsLogger.Env) (fresh now logged_at : string)
  (type : Notifications.NotificationType) (message : string)
  (m m' : Notifications.t) (logger logger' : MapsLogger.t)
  (effects : list Notifications.effect) (ms : nat) (id : string) :
  Notifications.add env fresh now logged_at type message m logger =
    (Return effects, m', logger') →
  Notifications.Timeout_set ms id ∈ effects ↔
  type ≠ Notifications.error ∧ ms = 5000 ∧ id = fresh.
Proof.
  rewrite add_unfold. intros [= <- _ _].
  rewrite !elem_of_app, list_elem_of_fmap.
  unfold Notifications.notify. rewrite list_elem_of_fmap.
  split.
  - intros [(? & ? & ?)|[Hc|[Ht|(? & ? & ?)]]]; try done.
    + destruct (_ && _); [destruct (negb _)|];
        by repeat (apply elem_of_cons in Hc as [?|Hc]; [done|]);
           apply elem_of_nil in Hc.
    + case_bool_decide; [|by apply elem_of_nil in Ht].
      apply list_elem_of_singleton in Ht. by simplify_eq.
  - intros (Hty & -> & ->). right. right. left.
    rewrite bool_decide_eq_true_2 by done. set_solver.
Qed.

(** X22: when the id is not in use, the removal that the timer runs gives back the
    list as it was before [add], and tells the listeners so. *)
Theorem timer_removal_restores
  (env : MapsLogger.Env) (fresh now logged_at : string)
  (type : Notifications.NotificationType) (message : string)
  (m m' : Notifications.t) (logger logger' : MapsLogger.t)
  (effects : list Notifications.effect) :
  fresh ∉ Notifications.id <$> Notifications.notifications m →
  Notifications.add env fresh now logged_at type message m logger =
    (Return effects, m', logger') →
  Notifications.remove fresh m' = (Notifications.notify m, m).
Proof.
  intros Hfresh. rewrite add_unfold. intros [= _ <- _].
  unfold Notifications.remove, Notifications.notify. simpl.
  assert (filter (λ n, Notifications.id n ≠ fresh)
            (Notifications.notifications m
             ++ [Notifications.mkNotification fresh type message now])
          = Notifications.notifications m) as ->.
  { rewrite filter_app, filter_cons_False, filter_nil, app_nil_r by (simpl; auto).
    induction (Notifications.notifications m) as [|n ns IH]; [done|].
    rewrite fmap_cons, not_elem_of_cons in Hfresh. destruct Hfresh as [Hn Hns].
    rewrite filter_cons_True by done. f_equal. by apply IH. }
  by destruct m.
Qed.

(** X23: subscribing a listener that is not subscribed and calling the function
    that [subscribe] returned leaves the manager as it was. *)
Theorem subscribe_unsubscribe (listener : Notifications.Listener) (m : Notifications.t) :
  listener ∉ Notifications.listeners m →
  Notifications.unsubscribe listener (Notifications.subscribe listener m) = m.
Proof.
  intros Hnew. unfold Notifications.unsubscribe, Notifications.subscribe, push.
  simpl.
  rewrite filter_app, filter_cons_False, filter_nil, app_nil_r by auto.
  assert (filter (λ l, l ≠ listener) (Notifications.listeners m)
          = Notifications.listeners m) as ->.
  { induction (Notifications.listeners m) as [|l ls IH]; [done|].
    apply not_elem_of_cons in Hnew as [Hl Hls].
    rewrite filter_cons_True by done. f_equal. by apply IH. }
  by destruct m.
Qed.

(** X24: one call of the function returned by [subscribe] removes every
    registration of the listener, also one made by another call of
    [subscribe]: no later [add] calls it. *)
Theorem unsubscribed_listener_not_called
  (env : MapsLogger.Env) (fresh now logged_at : string)
  (type : Notifications.NotificationType) (message : string)
  (listener : Notifications.Listener)
  (m m' : Notifications.t) (logger logger' : MapsLogger.t)
  (effects : list Notifications.effect) (snapshot : list Notifications.Notification) :
  Notifications.add env fresh now logged_at type message
    (Notifications.unsubscribe listener m) logger = (Return effects, m', logger') →
  Notifications.Listener_called listener snapshot ∉ effects.
Proof.
  rewrite add_unfold. intros [= <- _ _].
  rewrite !elem_of_app, list_elem_of_fmap.
  unfold Notifications.notify. rewrite list_elem_of_fmap. simpl.
  intros [(? & ? & ?)|[Hc|[Ht|(l & Hl & Hin)]]]; try done.
  - destruct (_ && _); [destruct (negb _)|];
      by repeat (apply elem_of_cons in Hc as [?|Hc]; [done|]);
         apply elem_of_nil in Hc.
  - case_bool_decide; [|by apply elem_of_nil in Ht].
    by apply list_elem_of_singleton in Ht.
  - simplify_eq. by apply list_elem_of_filter in Hin as [? _].
Qed.

(** X25: every notification is recorded by an enabled logger: the newest entry of
    the log is an [info] entry with action [notification] that carries the
    type, the message and the time of the notification. *)
Theorem notification_is_logged
  (env : MapsLogger.Env) (fresh now logged_at : string)
  (type : Notifications.NotificationType) (message : string)
  (m m' : Notifications.t) (logger logger' : MapsLogger.t)
  (outcome : result (list Notifications.effect)) :
  MapsLogger.enabled logger = true →
  0 < MapsLogger.maxLogs logger →
  Notifications.add env fresh now logged_at type message m logger =
    (outcome, m', logger') →
  last (MapsLogger.getLogs logger') =
  Some (MapsLogger.mkEntry logged_at MapsLogger.info "notification"
          (VObj [("type", VStr (Notifications.type_text type));
                 ("message", VStr message);
                 ("timestamp", VStr now)])).
Proof.
  intros Hen Hmax. rewrite add_unfold. intros [= _ _ <-].
  unfold MapsLogger.logInfo, MapsLogger.addLog, MapsLogger.getLogs, push.
  rewrite Hen. simpl.
  case_bool_decide as Hfull; [|by rewrite last_snoc].
  destruct (MapsLogger.logs logger) as [|first rest]; simpl in *.
  - lia.
  - by rewrite last_snoc.
Qed.

(** X26: in a production build without [VITE_ENABLE_MAPS_LOGGER] set to ['true'] a
    notification writes nothing to the console and nothing to the log: the
    only effects are the timer, for other than errors, and the calls of the
    listeners. *)
Theorem production_notification_silent
  (env : MapsLogger.Env) (fresh now logged_at : string)
  (type : Notifications.NotificationType) (message : string)
  (m : Notifications.t) :
  MapsLogger.DEV env = false →
  MapsLogger.VITE_ENABLE_MAPS_LOGGER env ≠ Some "true" →
  let m' := Notifications.mk
              (Notifications.notifications m
               ++ [Notifications.mkNotification fresh type message now])
              (Notifications.listeners m) in
  Notifications.add env fresh now logged_at type message m (MapsLogger.new env) =
  (Return ((if bool_decide (type ≠ Notifications.error)
            then [Notifications.Timeout_set 5000 fresh] else [])
           ++ Notifications.notify m'),
   m', MapsLogger.new env).
Proof.
  intros Hdev Hflag m'. rewrite add_unfold. fold m'.
  unfold MapsLogger.logInfo, MapsLogger.addLog, MapsLogger.new.
  rewrite Hdev. simpl. by rewrite bool_decide_eq_false_2.
Qed.

Lemma route_errors (w : World) (origin destination : string)
  (route : RouteValidation.t) (originValidation destinationValidation : AddressValidation.t) :
  validateRouteRegions w origin destination = Return route →
  validateAddressRegion w origin = Return originValidation →
  validateAddressRegion w destination = Return destinationValidation →
  (AddressValidation.valid originValidation = false →
   "Origen: " +:+ string_or (AddressValidation.error originValidation)
                            "Dirección no válida" ∈ RouteValidation.errors route) ∧
  (AddressValidation.valid destinationValidation = false →
   "Destino: " +:+ string_or (AddressValidation.error destinationValidation)
                             "Dirección no válida" ∈ RouteValidation.errors route).
Proof.
  unfold validateRouteRegions. intros Hroute Ho Hd.
  rewrite Ho in Hroute. simpl in Hroute. rewrite Hd in Hroute. simpl in Hroute.
  destruct originValidation as [ovalid ocode oerror],
           destinationValidation as [dvalid dcode derror]; simpl in *.
  destruct ovalid, dvalid, ocode as [ocode|], dcode as [dcode|]; simpl in *;
    repeat case_bool_decide; simpl in *;
    try (destruct (getEnabledRegions w) as [enabled|]; simpl in *; [|done]);
    repeat match type of Hroute with
           | context [includes ?xs ?x] => destruct (includes xs x)
           end;
    unfold push in Hroute; simpl in Hroute; simplify_eq; simpl;
    split; intros; try done; set_solver.
Qed.

Lemma error_means_invalid (w : World) (address : string)
  (validation : AddressValidation.t) (message : string) :
  validateAddressRegion w address = Return validation →
  AddressValidation.error validation = Some message →
  AddressValidation.valid validation = false.
Proof.
  unfold validateAddressRegion.
  destruct (google_maps w) as [geocode|]; [|by intros [= <-]].
  destruct (getEnabledRegions w) as [enabled|]; simpl; [|done].
  destruct (status (geocode address)), (results (geocode address)) as [[|first ?]|];
    try by intros [= <-].
  destruct (find_country (address_components first)) as [country|]; simpl;
    [|by intros [= <-]].
  case_bool_decide; [by intros [= <-]|].
  destruct (includes enabled _); by intros [= <-].
Qed.

(** X27: a route refused because one of its addresses could not be resolved, or
    resolved to no country, is not written to the console by the notification
    manager: the message the page builds from the route's errors contains
    the phrase that [add] filters on. *)
Theorem unresolved_route_error_not_printed
  (w : World) (origin destination : string) (route : RouteValidation.t)
  (originValidation destinationValidation : AddressValidation.t)
  (env : MapsLogger.Env) (fresh now logged_at : string)
  (m m' : Notifications.t) (logger logger' : MapsLogger.t)
  (effects : list Notifications.effect) (text : string) :
  validateRouteRegions w origin destination = Return route →
  validateAddressRegion w origin = Return originValidation →
  validateAddressRegion w destination = Return destinationValidation →
  (∃ validation,
     (validation = originValidation ∨ validation = destinationValidation) ∧
     (AddressValidation.error validation = Some "No se pudo validar la dirección" ∨
      AddressValidation.error validation =
        Some "No se pudo determinar el país de la dirección")) →
  Notifications.add env fresh now logged_at Notifications.error
    (route_error_message route) m logger = (Return effects, m', logger') →
  Notifications.Console_error text ∉ effects.
Proof.
  intros Hroute Ho Hd (validation & Hside & Hmessage).
  assert (string_includes "No se pudo validar" (route_error_message route)
          || string_includes "No se pudo determinar" (route_error_message route)
          = true) as Hphrase.
  { destruct (route_errors w origin destination route _ _ Hroute Ho Hd)
      as [Horigin Hdestination].
    assert (∀ side : string,
              side +:+ string_or (AddressValidation.error validation)
                                 "Dirección no válida"
                ∈ RouteValidation.errors route →
              string_includes "No se pudo validar" (route_error_message route)
              || string_includes "No se pudo determinar" (route_error_message route)
              = true) as Hside_in.
    { intros side Hin. apply orb_true_iff.
      destruct Hmessage as [Hm|Hm]; rewrite Hm in Hin; simpl in Hin; [left|right];
        (eapply string_includes_concat; [exact Hin|]);
        by apply string_includes_app_r. }
    destruct Hside as [->| ->].
    - apply (Hside_in "Origen: "), Horigin.
      destruct Hmessage as [Hm|Hm]; by eapply error_means_invalid.
    - apply (Hside_in "Destino: "), Hdestination.
      destruct Hmessage as [Hm|Hm]; by eapply error_means_invalid. }
  rewrite add_unfold. intros Hadd. injection Hadd as <- _ _.
  rewrite !elem_of_app, list_elem_of_fmap.
  unfold Notifications.notify. rewrite list_elem_of_fmap.
  rewrite Hphrase. simpl.
  intros [(? & ? & ?)|[Hc|(? & ? & ?)]]; try done.
  destruct (MapsLogger.DEV env); simpl in Hc; by apply elem_of_nil in Hc.
Qed.

End NotificationProperties.

(** * More runs on the reference host *)

Section MoreRuns.
Import Worlds.
#[local] Existing Instance Reference.host.
#[local] Existing Instance ReferenceStrings.host.

Lemma getEnabledRegions_starts_with_CL_witness :
  let w := browser (admin_json true ["AR"]) None None in
  getEnabledRegions w = Return [VStr "CL"; VStr "AR"] ∧
  ∃ others, [VStr "CL"; VStr "AR"] = VStr "CL" :: others.
Proof.
  intros w. split; [reflexivity|].
  exact (getEnabledRegions_starts_with_CL w [VStr "CL"; VStr "AR"] eq_refl).
Defined.

Lemma validateAddressRegion_unresolvable_witness :
  let w := fresh (Some geocoder) in
  google_maps w = Some geocoder ∧
  getEnabledRegions w = Return [VStr "CL"] ∧
  (status (geocoder "Av") ≠ OK ∨
   results (geocoder "Av") = None ∨
   results (geocoder "Av") = Some []) ∧
  validateAddressRegion w "Av" =
  Return (AddressValidation.mk false None (Some "No se pudo validar la dirección")).
Proof.
  intros w.
  assert (status (geocoder "Av") ≠ OK ∨
          results (geocoder "Av") = None ∨
          results (geocoder "Av") = Some []) as Hbad
    by (right; right; reflexivity).
  split_and!; [reflexivity | reflexivity | exact Hbad |].
  exact (validateAddressRegion_unresolvable w geocoder [VStr "CL"] "Av"
           eq_refl eq_refl Hbad).
Defined.

Lemma validateAddressRegion_country_undetermined_witness :
  let first := {| address_components :=
                    [ {| long_name := "Pacific Ocean"; short_name := "Pacific Ocean";
                         types := ["natural_feature"] |} ] |} in
  let geocode := λ _ : string, {| results := Some [first]; status := OK |} in
  let w := fresh (Some geocode) in
  google_maps w = Some geocode ∧
  getEnabledRegions w = Return [VStr "CL"] ∧
  status (geocode "Pacific Ocean") = OK ∧
  results (geocode "Pacific Ocean") = Some [first] ∧
  (short_name <$> find_country (address_components first) = None ∨
   short_name <$> find_country (address_components first) = Some EmptyString) ∧
  validateAddressRegion w "Pacific Ocean" =
  Return (AddressValidation.mk false None
            (Some "No se pudo determinar el país de la dirección")).
Proof.
  intros first geocode w.
  assert (short_name <$> find_country (address_components first) = None ∨
          short_name <$> find_country (address_components first) = Some EmptyString)
    as Hnone by (left; reflexivity).
  split_and!; [reflexivity | reflexivity | reflexivity | reflexivity | exact Hnone |].
  exact (validateAddressRegion_country_undetermined w geocode [VStr "CL"]
           "Pacific Ocean" first [] eq_refl eq_refl eq_refl eq_refl Hnone).
Defined.

Lemma validateAddressRegion_result_witness :
  let w := fresh (Some geocoder) in
  let validation := AddressValidation.mk true (Some "CL") None in
  validateAddressRegion w "Santiago, Chile" = Return validation ∧
  AddressValidation.error validation = None ∧
  ∃ countryCode enabled,
    AddressValidation.countryCode validation = Some countryCode ∧
    countryCode ≠ EmptyString ∧
    getEnabledRegions w = Return enabled ∧
    VStr countryCode ∈ enabled.
Proof.
  intros w validation. split; [reflexivity|].
  exact (validateAddressRegion_result w "Santiago, Chile" validation eq_refl).
Defined.

Lemma validateAddressRegion_non_admin_witness :
  let w := fresh (Some geocoder) in
  let argentina := {| long_name := "Argentina"; short_name := "AR";
                      types := ["country"; "political"] |} in
  truthy (isAdmin (getAdminConfig w)) = false ∧
  geocodes_to w "Mendoza, Argentina" argentina ∧
  short_name argentina ≠ EmptyString ∧
  ∃ validation,
    validateAddressRegion w "Mendoza, Argentina" = Return validation ∧
    AddressValidation.countryCode validation = Some (short_name argentina) ∧
    (AddressValidation.valid validation = true ↔ short_name argentina = "CL").
Proof.
  intros w argentina.
  assert (short_name argentina ≠ EmptyString) as Hne by discriminate.
  split_and!; [reflexivity | exact geocodes_Mendoza | exact Hne |].
  exact (validateAddressRegion_non_admin w "Mendoza, Argentina" argentina
           eq_refl geocodes_Mendoza Hne).
Defined.


Lemma validateRouteRegions_engine_not_loaded_witness :
  let w := fresh None in
  google_maps w = None ∧
  validateRouteRegions w "Santiago, Chile" "Mendoza, Argentina" =
  Return (RouteValidation.mk false
            [ "Origen: Google Maps no está cargado";
              "Destino: Google Maps no está cargado" ]).
Proof.
  intros w. split; [reflexivity|].
  exact (validateRouteRegions_engine_not_loaded w "Santiago, Chile"
           "Mendoza, Argentina" eq_refl).
Defined.


Lemma getAdminConfig_stored_overrides_environment_witness :
  let w1 := browser "not json" None None in
  let w2 := browser "not json" (Some "true") (Some geocoder) in
  getItem ADMIN_KEY w1 = Some "not json" ∧
  getItem ADMIN_KEY w2 = Some "not json" ∧
  "not json" ≠ EmptyString ∧
  getAdminConfig w1 = getAdminConfig w2.
Proof.
  intros w1 w2.
  assert ("not json" ≠ EmptyString) as Hne by discriminate.
  split_and!; [reflexivity | reflexivity | exact Hne |].
  exact (getAdminConfig_stored_overrides_environment w1 w2 "not json"
           eq_refl eq_refl Hne).
Defined.

Lemma getAdminConfig_reads_back_witness :
  let w := browser (admin_json true ["AR"]) None None in
  round_trips (admin_config true ["AR"]) ∧
  getItem ADMIN_KEY w =
    Some (JSON_stringify (AdminConfig_object (admin_config true ["AR"]))) ∧
  getAdminConfig w = admin_config true ["AR"].
Proof.
  intros w.
  split_and!; [exact (reference_round_trips true ["AR"]) | reflexivity |].
  exact (getAdminConfig_reads_back w true ["AR"]
           (reference_round_trips true ["AR"]) eq_refl).
Defined.

Lemma toggle_enable_witness :
  let w := browser (admin_json true ["PE"]) None None in
  getAdminConfig w = admin_config true ["PE"] ∧
  in_registry "AR" ∧
  round_trips {| isAdmin := VBool true;
                 enabledRegions := VArr (updated_regions ["PE"] "AR" true) |} ∧
  ∃ w' codes',
    toggleRegionForAdmin "AR" true w = (Return (), w') ∧
    getAdminConfig w' = admin_config true codes' ∧
    NoDup codes' ∧
    (∀ c, c ∈ codes' ↔ c = "AR" ∨ c ∈ ["PE"]) ∧
    ∃ enabled, getEnabledRegions w' = Return enabled ∧ VStr "AR" ∈ enabled.
Proof.
  intros w.
  split_and!; [reflexivity | exact AR_registered
              | exact (reference_round_trips true ["PE"; "AR"]) |].
  exact (toggle_enable w ["PE"] "AR" eq_refl AR_registered
           (reference_round_trips true ["PE"; "AR"])).
Defined.

Lemma toggle_disable_witness :
  let w := browser (admin_json true ["PE"; "AR"]) None None in
  getAdminConfig w = admin_config true ["PE"; "AR"] ∧
  in_registry "AR" ∧
  round_trips {| isAdmin := VBool true;
                 enabledRegions := VArr (updated_regions ["PE"; "AR"] "AR" false) |} ∧
  ∃ w',
    toggleRegionForAdmin "AR" false w = (Return (), w') ∧
    getAdminConfig w' = admin_config true (filter (λ c, c ≠ "AR") ["PE"; "AR"]) ∧
    ∃ enabled, getEnabledRegions w' = Return enabled ∧
               (VStr "AR" ∈ enabled ↔ "AR" = "CL").
Proof.
  intros w.
  split_and!; [reflexivity | exact AR_registered
              | exact (reference_round_trips true ["PE"]) |].
  exact (toggle_disable w ["PE"; "AR"] "AR" eq_refl AR_registered
           (reference_round_trips true ["PE"])).
Defined.

Lemma toggle_twice_witness :
  let w := browser (admin_json true ["PE"]) None None in
  getAdminConfig w = admin_config true ["PE"] ∧
  in_registry "AR" ∧
  round_trips {| isAdmin := VBool true;
                 enabledRegions := VArr (updated_regions ["PE"] "AR" true) |} ∧
  ∃ w',
    toggleRegionForAdmin "AR" true w = (Return (), w') ∧
    toggleRegionForAdmin "AR" true w' = (Return (), w').
Proof.
  intros w.
  split_and!; [reflexivity | exact AR_registered
              | exact (reference_round_trips true ["PE"; "AR"]) |].
  exact (toggle_twice w ["PE"] "AR" true eq_refl AR_registered
           (reference_round_trips true ["PE"; "AR"])).
Defined.

Lemma getRegionInfo_status_witness :
  let w := browser (admin_json true ["AR"]) None None in
  getAdminConfig w = admin_config true ["AR"] ∧
  ∃ info,
    getRegionInfo w = Return info ∧
    info.*1 = Object_values REGION_CONFIG ∧
    ∀ region isEnabled,
      (region, isEnabled) ∈ info →
      (isEnabled = true ↔
       RegionConfig.code region = "CL" ∨
       true = true ∧ RegionConfig.code region ∈ ["AR"]).
Proof.
  intros w. split; [reflexivity|].
  exact (getRegionInfo_status w true ["AR"] eq_refl).
Defined.

Lemma handleToggleRegion_flips_witness :
  let w := browser (admin_json true ["PE"]) None None in
  let argentina := RegionConfig.mk "AR" "Argentina" false true in
  let regions := [ (RegionConfig.mk "CL" "Chile" true false, true);
                   (argentina, false);
                   (RegionConfig.mk "PE" "Perú" false true, true);
                   (RegionConfig.mk "BO" "Bolivia" false true, false);
                   (RegionConfig.mk "CO" "Colombia" false true, false) ] in
  getAdminConfig w = admin_config true ["PE"] ∧
  getRegionInfo w = Return regions ∧
  (argentina, false) ∈ regions ∧
  RegionConfig.adminOnly argentina = true ∧
  round_trips
    {| isAdmin := VBool true;
       enabledRegions :=
         VArr (updated_regions ["PE"] (RegionConfig.code argentina) (negb false)) |} ∧
  ∃ w' regions',
    handleToggleRegion (RegionConfig.code argentina) false w regions =
      (w', regions') ∧
    getRegionInfo w' = Return regions' ∧
    (argentina, negb false) ∈ regions' ∧
    ∀ other isEnabled,
      other ≠ argentina →
      ((other, isEnabled) ∈ regions' ↔ (other, isEnabled) ∈ regions).
Proof.
  intros w argentina regions.
  assert ((argentina, false) ∈ regions) as Hin by (by repeat constructor).
  split_and!; [reflexivity | reflexivity | exact Hin | reflexivity
              | exact (reference_round_trips true ["PE"; "AR"]) |].
  exact (handleToggleRegion_flips w ["PE"] regions argentina false
           eq_refl eq_refl Hin eq_refl (reference_round_trips true ["PE"; "AR"])).
Defined.

Lemma logger_keeps_latest_entries_witness :
  let env := {| MapsLogger.DEV := false;
                MapsLogger.VITE_ENABLE_MAPS_LOGGER := Some "true" |} in
  let entries := (λ n, MapsLogger.mkEntry (pretty n) MapsLogger.info "tick" VNull)
                   <$> seq 0 102 in
  (MapsLogger.DEV env = true ∨
   MapsLogger.VITE_ENABLE_MAPS_LOGGER env = Some "true") ∧
  MapsLogger.getLogs
    (foldl (λ l entry, (MapsLogger.addLog env entry l).2) (MapsLogger.new env) entries) =
  drop (length entries - 100) entries.
Proof.
  intros env entries.
  assert (MapsLogger.DEV env = true ∨
          MapsLogger.VITE_ENABLE_MAPS_LOGGER env = Some "true") as Hon
    by (right; reflexivity).
  split; [exact Hon|].
  exact (logger_keeps_latest_entries env entries Hon).
Defined.

Lemma route_validation_error_console_witness :
  let env := {| MapsLogger.DEV := true;
                MapsLogger.VITE_ENABLE_MAPS_LOGGER := None |} in
  let origin := VObj [("address", VStr " Av ")] in
  let destination := VObj [("address", VStr "Mendoza, Argentina")] in
  let data := VObj [("error", VObj [("code", VUndefined); ("status", VUndefined);
                                    ("message", VStr "Origen: No se pudo validar la dirección")]);
                    ("origin", origin);
                    ("destination", destination)] in
  let l := MapsLogger.new env in
  let entry := MapsLogger.mkEntry "2025-01-01T00:00:00.000Z" MapsLogger.error
                 "route_validation_failed" data in
  MapsLogger.DEV env = true ∧
  MapsLogger.enabled l = true ∧
  length (MapsLogger.logs l) < MapsLogger.maxLogs l ∧
  get_field data "origin" = Return origin ∧
  get_field data "destination" = Return destination ∧
  trims_short (optional_field origin "address") = Return true ∧
  trims_short (optional_field destination "address") = Return false ∧
  MapsLogger.addLog env entry l =
  (Return (if true || false then []
           else [MapsLogger.console_error
                   "[MapsLogger] ERROR: route_validation_failed" data]),
   MapsLogger.mk (MapsLogger.logs l ++ [entry]) (MapsLogger.maxLogs l) true).
Proof.
  intros env origin destination data l entry.
  assert (length (MapsLogger.logs l) < MapsLogger.maxLogs l) as Hroom
    by (simpl; lia).
  split_and!; [reflexivity | reflexivity | exact Hroom | reflexivity | reflexivity
              | reflexivity | reflexivity |].
  exact (route_validation_error_console env "2025-01-01T00:00:00.000Z" data
           origin destination true false l
           eq_refl eq_refl Hroom eq_refl eq_refl eq_refl eq_refl).
Defined.

Lemma removal_timer_iff_witness :
  let env := {| MapsLogger.DEV := true;
                MapsLogger.VITE_ENABLE_MAPS_LOGGER := None |} in
  ∃ effects m' logger',
    Notifications.add env "1735689600000-0.25" "2025-01-01T00:00:00.000Z"
      "2025-01-01T00:00:00.001Z" Notifications.info
      "Ubicación actual establecida como origen"
      (Notifications.subscribe 0 Notifications.new) (MapsLogger.new env) =
      (Return effects, m', logger') ∧
    (Notifications.Timeout_set 5000 "1735689600000-0.25" ∈ effects ↔
     Notifications.info ≠ Notifications.error ∧ 5000 = 5000 ∧
     "1735689600000-0.25" = "1735689600000-0.25").
Proof.
  intros env. eexists _, _, _. split; [reflexivity|].
  exact (removal_timer_iff env "1735689600000-0.25" "2025-01-01T00:00:00.000Z"
           "2025-01-01T00:00:00.001Z" Notifications.info
           "Ubicación actual establecida como origen"
           (Notifications.subscribe 0 Notifications.new) _ (MapsLogger.new env) _ _
           5000 "1735689600000-0.25" eq_refl).
Defined.

Lemma timer_removal_restores_witness :
  let env := {| MapsLogger.DEV := true;
                MapsLogger.VITE_ENABLE_MAPS_LOGGER := None |} in
  let m := Notifications.mk
             [Notifications.mkNotification "1735689500000-0.75" Notifications.error
                "El destino debe estar en Chile" "2024-12-31T23:58:20.000Z"]
             [0; 1] in
  ("1735689600000-0.25" ∉ Notifications.id <$> Notifications.notifications m) ∧
  ∃ effects m' logger',
    Notifications.add env "1735689600000-0.25" "2025-01-01T00:00:00.000Z"
      "2025-01-01T00:00:00.001Z" Notifications.warning "Ruta no disponible"
      m (MapsLogger.new env) = (Return effects, m', logger') ∧
    Notifications.remove "1735689600000-0.25" m' = (Notifications.notify m, m).
Proof.
  intros env m.
  assert ("1735689600000-0.25" ∉ Notifications.id <$> Notifications.notifications m)
    as Hfresh.
  { simpl. intros Hin. apply list_elem_of_singleton in Hin. discriminate Hin. }
  split; [exact Hfresh|]. eexists _, _, _. split; [reflexivity|].
  exact (timer_removal_restores env "1735689600000-0.25" "2025-01-01T00:00:00.000Z"
           "2025-01-01T00:00:00.001Z" Notifications.warning "Ruta no disponible"
           m _ (MapsLogger.new env) _ _ Hfresh eq_refl).
Defined.

Lemma subscribe_unsubscribe_witness :
  let m := Notifications.mk [] [0; 1] in
  (2 ∉ Notifications.listeners m) ∧
  Notifications.unsubscribe 2 (Notifications.subscribe 2 m) = m.
Proof.
  intros m.
  assert (2 ∉ Notifications.listeners m) as Hnew.
  { simpl. intros Hin. apply elem_of_cons in Hin as [Hin|Hin]; [discriminate Hin|].
    apply list_elem_of_singleton in Hin. discriminate Hin. }
  split; [exact Hnew|].
  exact (subscribe_unsubscribe 2 m Hnew).
Defined.

Lemma unsubscribed_listener_not_called_witness :
  let env := {| MapsLogger.DEV := true;
                MapsLogger.VITE_ENABLE_MAPS_LOGGER := None |} in
  let m := Notifications.subscribe 7 (Notifications.subscribe 3
             (Notifications.subscribe 7 Notifications.new)) in
  ∃ effects m' logger',
    Notifications.add env "1735689600000-0.25" "2025-01-01T00:00:00.000Z"
      "2025-01-01T00:00:00.001Z" Notifications.success "Ruta calculada"
      (Notifications.unsubscribe 7 m) (MapsLogger.new env) =
      (Return effects, m', logger') ∧
    Notifications.Listener_called 7 (Notifications.notifications m') ∉ effects.
Proof.
  intros env m. eexists _, _, _. split; [reflexivity|].
  exact (unsubscribed_listener_not_called env "1735689600000-0.25"
           "2025-01-01T00:00:00.000Z" "2025-01-01T00:00:00.001Z"
           Notifications.success "Ruta calculada" 7 m _ (MapsLogger.new env) _ _ _
           eq_refl).
Defined.

Lemma notification_is_logged_witness :
  let env := {| MapsLogger.DEV := false;
                MapsLogger.VITE_ENABLE_MAPS_LOGGER := Some "true" |} in
  let logger := MapsLogger.new env in
  MapsLogger.enabled logger = true ∧
  0 < MapsLogger.maxLogs logger ∧
  ∃ outcome m' logger',
    Notifications.add env "1735689600000-0.25" "2025-01-01T00:00:00.000Z"
      "2025-01-01T00:00:00.001Z" Notifications.error "Ruta no disponible"
      Notifications.new logger = (outcome, m', logger') ∧
    last (MapsLogger.getLogs logger') =
    Some (MapsLogger.mkEntry "2025-01-01T00:00:00.001Z" MapsLogger.info "notification"
            (VObj [("type", VStr (Notifications.type_text Notifications.error));
                   ("message", VStr "Ruta no disponible");
                   ("timestamp", VStr "2025-01-01T00:00:00.000Z")])).
Proof.
  intros env logger.
  assert (0 < MapsLogger.maxLogs logger) as Hmax by (simpl; lia).
  split_and!; [reflexivity | exact Hmax |].
  eexists _, _, _. split; [reflexivity|].
  exact (notification_is_logged env "1735689600000-0.25" "2025-01-01T00:00:00.000Z"
           "2025-01-01T00:00:00.001Z" Notifications.error "Ruta no disponible"
           Notifications.new _ logger _ _ eq_refl Hmax eq_refl).
Defined.

Lemma production_notification_silent_witness :
  let env := {| MapsLogger.DEV := false;
                MapsLogger.VITE_ENABLE_MAPS_LOGGER := None |} in
  let m := Notifications.subscribe 0 Notifications.new in
  let m' := Notifications.mk
              (Notifications.notifications m
               ++ [Notifications.mkNotification "1735689600000-0.25"
                     Notifications.error "Ruta no disponible"
                     "2025-01-01T00:00:00.000Z"])
              (Notifications.listeners m) in
  MapsLogger.DEV env = false ∧
  MapsLogger.VITE_ENABLE_MAPS_LOGGER env ≠ Some "true" ∧
  Notifications.add env "1735689600000-0.25" "2025-01-01T00:00:00.000Z"
    "2025-01-01T00:00:00.001Z" Notifications.error "Ruta no disponible"
    m (MapsLogger.new env) =
  (Return ((if bool_decide (Notifications.error ≠ Notifications.error)
            then [Notifications.Timeout_set 5000 "1735689600000-0.25"] else [])
           ++ Notifications.notify m'),
   m', MapsLogger.new env).
Proof.
  intros env m m'.
  assert (MapsLogger.VITE_ENABLE_MAPS_LOGGER env ≠ Some "true") as Hflag
    by discriminate.
  split_and!; [reflexivity | exact Hflag |].
  exact (production_notification_silent env "1735689600000-0.25"
           "2025-01-01T00:00:00.000Z" "2025-01-01T00:00:00.001Z"
           Notifications.error "Ruta no disponible" m eq_refl Hflag).
Defined.

Lemma unresolved_route_error_not_printed_witness :
  let w := fresh (Some geocoder) in
  let env := {| MapsLogger.DEV := true;
                MapsLogger.VITE_ENABLE_MAPS_LOGGER := None |} in
  let route := RouteValidation.mk false
                 ["Origen: No se pudo validar la dirección"] in
  let originValidation :=
    AddressValidation.mk false None (Some "No se pudo validar la dirección") in
  let destinationValidation := AddressValidation.mk true (Some "CL") None in
  validateRouteRegions w "Av" "Santiago, Chile" = Return route ∧
  validateAddressRegion w "Av" = Return originValidation ∧
  validateAddressRegion w "Santiago, Chile" = Return destinationValidation ∧
  (∃ validation,
     (validation = originValidation ∨ validation = destinationValidation) ∧
     (AddressValidation.error validation = Some "No se pudo validar la dirección" ∨
      AddressValidation.error validation =
        Some "No se pudo determinar el país de la dirección")) ∧
  ∃ effects m' logger',
    Notifications.add env "1735689600000-0.25" "2025-01-01T00:00:00.000Z"
      "2025-01-01T00:00:00.001Z" Notifications.error (route_error_message route)
      Notifications.new (MapsLogger.new env) = (Return effects, m', logger') ∧
    Notifications.Console_error ("[ERROR] " +:+ route_error_message route) ∉ effects.
Proof.
  intros w env route originValidation destinationValidation.
  assert (∃ validation,
     (validation = originValidation ∨ validation = destinationValidation) ∧
     (AddressValidation.error validation = Some "No se pudo validar la dirección" ∨
      AddressValidation.error validation =
        Some "No se pudo determinar el país de la dirección")) as Hside.
  { exists originValidation. split; left; reflexivity. }
  split_and!; [reflexivity | reflexivity | reflexivity | exact Hside |].
  eexists _, _, _. split; [reflexivity|].
  exact (unresolved_route_error_not_printed w "Av" "Santiago, Chile" route
           originValidation destinationValidation env "1735689600000-0.25"
           "2025-01-01T00:00:00.000Z" "2025-01-01T00:00:00.001Z"
           Notifications.new _ (MapsLogger.new env) _ _ _
           eq_refl eq_refl eq_refl Hside eq_refl).
Defined.

End MoreRuns.
